(** * KarlsenVault: coin selection, transaction assembly, device replies
      and the transport session of [lib/ledger.ts]

    Amounts are SOMPI counts.  The source stores them in JS numbers, that
    is in IEEE 754 doubles; they are integers there (they come from
    [Number] of the relay's decimal strings and from sums and differences
    of such).  A number is modelled by the integer it holds, and [+] and
    [-] on amounts round their exact result to a double as the hardware
    does ([roundToDouble]): they are exact up to 2^53 and round to 53
    significant bits beyond. *)

From Stdlib Require Import ZArith List Bool String Ascii Lia.
From Stdlib Require Import QArith Qround.
From Stdlib Require Import Permutation.
From Stdlib Require Import Floats.
From Stdlib Require Strings.Byte.
Import ListNotations.

Open Scope Z_scope.

(** ** Data model *)

(** [UtxoInfo]: the three fields the source declares. *)
Module Utxo.
Record UtxoInfo : Type := mk
  { prevTxId : string;
    outpointIndex : Z;
    amount : Z }.
End Utxo.
Abbreviation UtxoInfo := Utxo.UtxoInfo.

(** [UtxoSelectionResult]: what [selectUtxos] returns. *)
Record UtxoSelectionResult : Type := mkSelection
  { hasEnough : bool;
    utxos : list UtxoInfo;
    fee : Z;
    total : Z }.

(** ** JS numbers *)

(** The double nearest to the integer [z]: [z] itself up to 2^53 in
    magnitude; beyond, [z] rounded to 53 significant bits, to the nearest
    and to the even one of two equally near.  (No sum of amounts comes
    near 2^1024, where doubles end.) *)
Definition roundToDouble (z : Z) : Z :=
  let a := Z.abs z in
  if a <=? 2 ^ 53 then z
  else
    let k := Z.log2 a - 52 in
    let q := a / 2 ^ k in
    let r := a mod 2 ^ k in
    let half := 2 ^ (k - 1) in
    let up := (half <? r) || ((half =? r) && Z.odd q) in
    Z.sgn z * ((if up then q + 1 else q) * 2 ^ k).

(** [x + y] and [x - y] on numbers that hold integers. *)
Definition jsAdd (x y : Z) : Z := roundToDouble (x + y).
Definition jsSub (x y : Z) : Z := roundToDouble (x - y).

(** The integer a binary64 value holds, and the binary64 value of an
    integer, to compare [jsAdd] and [jsSub] with the machine's own
    addition and subtraction. *)
Definition integerOfDouble (f : float) : option Z :=
  match Prim2SF f with
  | S754_zero _ => Some 0
  | S754_finite s m e =>
      if 0 <=? e then Some ((if s then -1 else 1) * (Z.pos m * 2 ^ e))
      else if Z.pos m mod 2 ^ (- e) =? 0
           then Some ((if s then -1 else 1) * (Z.pos m / 2 ^ (- e)))
           else None
  | _ => None
  end.

Definition doubleOfInteger (z : Z) : float :=
  SF2Prim (binary_normalize prec emax z 0 false).

Definition machineAdd (x y : Z) : option Z :=
  integerOfDouble (doubleOfInteger x + doubleOfInteger y)%float.

Definition machineSub (x y : Z) : option Z :=
  integerOfDouble (doubleOfInteger x - doubleOfInteger y)%float.

(** ** selectUtxos *)

(** The three locals the loop of [selectUtxos] updates. *)
Record LoopVars : Type := mkVars
  { var_fee : Z;
    var_total : Z;
    var_selected : list UtxoInfo }.

(** [let fee = 239 + 690; let total = 0; const selected = [];] *)
Definition initialVars : LoopVars :=
  {| var_fee := 239 + 690; var_total := 0; var_selected := [] |}.

(** One pass through the body of the [for ... of] loop: the updated
    locals, and whether the [break] is taken.  ([fee += 1118] is exact:
    an array has fewer than 2^32 elements, so the fee stays far below
    2^53.) *)
Definition loopBody (amount : Z) (feeIncluded : bool)
    (vars : LoopVars) (utxo : UtxoInfo) : LoopVars * bool :=
  let fee := var_fee vars + 1118 in
  let total := jsAdd (var_total vars) (Utxo.amount utxo) in
  let selected := var_selected vars ++ [utxo] in
  let targetAmount := if feeIncluded then jsSub amount fee else amount in
  let totalSpend := jsAdd targetAmount fee in
  ({| var_fee := fee; var_total := total; var_selected := selected |},
   (total =? totalSpend)
   || ((total >? totalSpend) && (1 <? Z.of_nat (List.length selected)))).

(** [for (const utxo of utxosInput) { ... break ... }] *)
Fixpoint forOf (amount : Z) (feeIncluded : bool)
    (vars : LoopVars) (utxosInput : list UtxoInfo) : LoopVars :=
  match utxosInput with
  | [] => vars
  | utxo :: rest =>
      let (vars', stop) := loopBody amount feeIncluded vars utxo in
      if stop then vars' else forOf amount feeIncluded vars' rest
  end.

(** The locals as they stand at the end of every pass the loop makes,
    in order. *)
Fixpoint forOfTrace (amount : Z) (feeIncluded : bool)
    (vars : LoopVars) (utxosInput : list UtxoInfo) : list LoopVars :=
  match utxosInput with
  | [] => []
  | utxo :: rest =>
      let (vars', stop) := loopBody amount feeIncluded vars utxo in
      vars' :: (if stop then [] else forOfTrace amount feeIncluded vars' rest)
  end.

Definition selectUtxos (amount : Z) (utxosInput : list UtxoInfo)
    (feeIncluded : bool) : UtxoSelectionResult :=
  let vars := forOf amount feeIncluded initialVars utxosInput in
  let fee := var_fee vars in
  let total := var_total vars in
  let targetAmount := if feeIncluded then jsSub amount fee else amount in
  {| hasEnough := total >=? jsAdd targetAmount fee;
     utxos := var_selected vars;
     fee := fee;
     total := total |}.

(** Sum of the amounts of a list of outputs. *)
Definition sumAmounts (l : list UtxoInfo) : Z :=
  fold_left (fun acc u => acc + Utxo.amount u) l 0.

(** The same sum as the loop computes it: [total += utxo.amount] from
    the left, starting from [acc]. *)
Definition addedUp (acc : Z) (l : list UtxoInfo) : Z :=
  fold_left (fun total utxo => jsAdd total (Utxo.amount utxo)) l acc.

(** Amounts for which every sum and difference the selector and the
    builder form is exact: a non-negative target, non-negative candidate
    amounts, and target, all amounts and the fee of all candidates
    together within 2^53. *)
Definition exactRange (amount : Z) (l : list UtxoInfo) : Prop :=
  0 <= amount
  /\ Forall (fun u => 0 <= Utxo.amount u) l
  /\ amount + sumAmounts l
     + (239 + 690 + 1118 * Z.of_nat (List.length l)) <= 2 ^ 53.

(** The caller's contract: amounts in descending order. *)
Fixpoint sortedDescending (l : list UtxoInfo) : bool :=
  match l with
  | [] => true
  | u :: rest =>
      match rest with
      | [] => true
      | v :: _ => (Utxo.amount v <=? Utxo.amount u) && sortedDescending rest
      end
  end.

(** What the loop has consumed when it is left, and why it was left:
    the first [k] candidates, and either all of them or the test before
    [break] held. *)
Definition leftAfter (amount : Z) (feeIncluded : bool) (vars : LoopVars)
    (l : list UtxoInfo) (k : nat) (out : LoopVars) : Prop :=
  (k <= List.length l)%nat
  /\ var_fee out = var_fee vars + 1118 * Z.of_nat k
  /\ var_total out = addedUp (var_total vars) (firstn k l)
  /\ var_selected out = var_selected vars ++ firstn k l
  /\ (k = List.length l
      \/ jsAdd (if feeIncluded then jsSub amount (var_fee out) else amount)
           (var_fee out)
         <= var_total out).

(** An output that carries only an amount, as the spec's scenarios write
    them. *)
Definition coin (a : Z) : UtxoInfo :=
  {| Utxo.prevTxId := EmptyString; Utxo.outpointIndex := 0; Utxo.amount := a |}.

(** The two coins of the spec's scenario A. *)
Definition scenarioA : list UtxoInfo := [coin 50000; coin 40000].

(** ** Exceptions *)

(** What a call ends with.  [Error message] is [new Error(message)] thrown
    by this file's own code; [Foreign] is whatever a collaborator (the
    address utilities, the device transport) threw. *)
Inductive Exception : Type :=
  | Error (message : string)
  | Foreign.

Inductive Completion (A : Type) : Type :=
  | Returned (a : A)
  | Threw (e : Exception).
Arguments Returned {A} a.
Arguments Threw {A} e.

Definition bind {A B : Type} (c : Completion A) (k : A -> Completion B)
    : Completion B :=
  match c with
  | Returned a => k a
  | Threw e => Threw e
  end.

Notation "x <- c ;; k" := (bind c (fun x => k))
  (at level 61, c at next level, right associativity).

(** ** createTransaction *)

(** The classes of the signing library [hw-app-karlsen], as records of
    the fields [createTransaction] passes to their constructors. *)
Module TxIn.
Record TransactionInput (PathIndex : Type) : Type := mk
  { value : Z;
    prevTxId : string;
    outpointIndex : Z;
    addressType : PathIndex;
    addressIndex : PathIndex }.
Arguments mk {PathIndex}.
Arguments value {PathIndex}.
Arguments prevTxId {PathIndex}.
Arguments outpointIndex {PathIndex}.
Arguments addressType {PathIndex}.
Arguments addressIndex {PathIndex}.
End TxIn.

Module TxOut.
Record TransactionOutput (Script : Type) : Type := mk
  { value : Z;
    scriptPublicKey : Script }.
Arguments mk {Script}.
Arguments value {Script}.
Arguments scriptPublicKey {Script}.
End TxOut.

Module Tx.
Record Transaction (Script PathIndex : Type) : Type := mk
  { version : Z;
    inputs : list (TxIn.TransactionInput PathIndex);
    outputs : list (TxOut.TransactionOutput Script);
    changeAddressType : PathIndex;
    changeAddressIndex : PathIndex }.
Arguments mk {Script PathIndex}.
Arguments version {Script PathIndex}.
Arguments inputs {Script PathIndex}.
Arguments outputs {Script PathIndex}.
Arguments changeAddressType {Script PathIndex}.
Arguments changeAddressIndex {Script PathIndex}.
End Tx.

(** [Math.round(x)] is the floor of [x + 0.5], taken exactly. *)
Definition Math_round (x : Z) : Z := Qfloor (inject_Z x + (1 # 2))%Q.

(** [Number(x.toFixed(8))]: [toFixed(8)] writes the integer nearest to
    [x * 10^8] with the point eight places from the right, and [Number]
    reads the numeral back.  For a number [x] that holds an integer that
    nearest integer is [x * 10^8] itself, the numeral is that of [x] and
    the division below is exact. *)
Definition numberToFixed8 (x : Z) : Z := (x * 10 ^ 8) / 10 ^ 8.

(** [s.split(sep)] for a one-character separator. *)
Fixpoint split (sep : ascii) (s : string) : list string :=
  match s with
  | EmptyString => [EmptyString]
  | String c rest =>
      if Ascii.eqb c sep then EmptyString :: split sep rest
      else match split sep rest with
           | piece :: pieces => String c piece :: pieces
           | [] => [String c EmptyString]
           end
  end.

Section Builder.
(** Script public keys, and [addressToScriptPublicKey] of
    [./karlsen-util]; [None] when it throws. *)
Variable Script : Type.
Variable addressToScriptPublicKey : string -> option Script.

(** What [Number(path[i])] yields, and [Number] itself on an element of
    the split path that may be [undefined]. *)
Variable PathIndex : Type.
Variable Number : option string -> PathIndex.

Definition scriptOf (address : string) : Completion Script :=
  match addressToScriptPublicKey address with
  | Some script => Returned script
  | None => Threw Foreign
  end.

Definition createTransaction (amount : Z) (sendTo : string)
    (utxosInput : list UtxoInfo) (derivationPath : string)
    (changeAddress : string) (feeIncluded : bool)
    : Completion (Tx.Transaction Script PathIndex * Z) :=
  let selection := selectUtxos amount utxosInput feeIncluded in
  let fee := fee selection in
  let totalUtxoAmount := total selection in
  if negb (hasEnough selection) then Threw (Error "Amount too high.")
  else
    let path := split "/" derivationPath in
    let inputs :=
      map (fun utxo =>
             {| TxIn.value := Utxo.amount utxo;
                TxIn.prevTxId := Utxo.prevTxId utxo;
                TxIn.outpointIndex := Utxo.outpointIndex utxo;
                TxIn.addressType := Number (nth_error path 3);
                TxIn.addressIndex := Number (nth_error path 4) |})
          (utxos selection) in
    let targetAmount :=
      if feeIncluded then numberToFixed8 (jsSub amount fee) else amount in
    sendToScript <- scriptOf sendTo ;;
    let sendToOutput :=
      {| TxOut.value := targetAmount;
         TxOut.scriptPublicKey := sendToScript |} in
    let outputs := [sendToOutput] in
    let changeAmount := jsSub (jsSub totalUtxoAmount targetAmount) fee in
    outputs <-
      (if changeAmount >=? 10000 then
         changeScript <- scriptOf changeAddress ;;
         Returned
           (outputs ++
              [{| TxOut.value := Math_round changeAmount;
                  TxOut.scriptPublicKey := changeScript |}])
       else Returned outputs) ;;
    Returned
      ({| Tx.version := 0;
          Tx.inputs := inputs;
          Tx.outputs := outputs;
          Tx.changeAddressType := Number (nth_error path 3);
          Tx.changeAddressIndex := Number (nth_error path 4) |},
       fee).
End Builder.

(** ** getAppAndVersion *)

Abbreviation Buffer := (list Byte.byte).

(** The reply of [transport.send]. *)
Inductive SendResult : Type :=
  | Received (r : Buffer)
  | SendFailed.

(** A device transport, as far as this file uses it:
    [send(cla, ins, p1, p2)]. *)
Record Transport : Type :=
  { send : N -> N -> N -> N -> SendResult }.

(** The cursor [i] of [getAppAndVersion]: a position, or [NaN] ([None])
    once a length read past the end of the reply has been added to it. *)
Definition Cursor := option nat.

(** [r[i]]: [undefined] ([None]) outside the buffer and at [NaN]. *)
Definition at_index (r : Buffer) (i : Cursor) : option Byte.byte :=
  match i with
  | Some n => nth_error r n
  | None => None
  end.

(** [i++] leaves [NaN] as it is. *)
Definition increment (i : Cursor) : Cursor := option_map S i.

(** [i += len], [NaN] when [len] is [undefined]. *)
Definition advance (i : Cursor) (len : option Byte.byte) : Cursor :=
  match i, len with
  | Some n, Some b => Some (n + Byte.to_nat b)%nat
  | _, _ => None
  end.

(** [r.slice(start, end)]: [NaN] counts as 0, both ends are clamped to the
    length, and an end before the start gives the empty buffer. *)
Definition slice (r : Buffer) (start end_ : Cursor) : Buffer :=
  let clamp (i : Cursor) :=
    Nat.min (match i with Some n => n | None => 0%nat end) (List.length r) in
  firstn (clamp end_ - clamp start) (skipn (clamp start) r).

(** [buf.toString('ascii')]: the low seven bits of every byte. *)
Definition toString_ascii (b : Buffer) : string :=
  string_of_list_ascii
    (map (fun x => ascii_of_N (N.land (Byte.to_N x) 127)) b).

Record AppAndVersion : Type :=
  { name : string;
    version : string;
    flags : Buffer }.

(** [format !== 1] *)
Definition notOne (format : option Byte.byte) : bool :=
  match format with
  | Some b => negb (Byte.eqb b Byte.x01)
  | None => true
  end.

(** The body of [getAppAndVersion] after the reply [r] has arrived. *)
Definition parseAppAndVersion (r : Buffer) : Completion AppAndVersion :=
  let i : Cursor := Some 0%nat in
  let format := at_index r i in
  let i := increment i in
  if notOne format then Threw (Error "getAppAndVersion: format not supported")
  else
    let nameLength := at_index r i in
    let i := increment i in
    let i' := advance i nameLength in
    let name := toString_ascii (slice r i i') in
    let i := i' in
    let versionLength := at_index r i in
    let i := increment i in
    let i' := advance i versionLength in
    let version := toString_ascii (slice r i i') in
    let i := i' in
    let flagLength := at_index r i in
    let i := increment i in
    let i' := advance i flagLength in
    let flags := slice r i i' in
    Returned {| name := name; version := version; flags := flags |}.

Definition getAppAndVersion (transport : Transport)
    : Completion AppAndVersion :=
  match send transport 0xb0 0x01 0x00 0x00 with
  | Received r => parseAppAndVersion r
  | SendFailed => Threw Foreign
  end.

(** The reply of an application named Karlsen, version 1.0.0, with one
    flags byte 00. *)
Definition karlsenReply : Buffer :=
  [Byte.x01;
   Byte.x07; Byte.x4b; Byte.x61; Byte.x72; Byte.x6c; Byte.x73; Byte.x65;
   Byte.x6e;
   Byte.x05; Byte.x31; Byte.x2e; Byte.x30; Byte.x2e; Byte.x30;
   Byte.x01; Byte.x00].

(** ** initTransport *)

(** [initTransport] is an [async] function over the module-level
    [transportState].  A call runs until it returns or reaches an [await];
    there it is suspended until the awaited promise has settled.  The
    promises are those [TransportWebHID.create()] returned, numbered in
    the order of the calls to [create]. *)
Module Session.
Local Open Scope nat_scope.

Definition Handle := nat.
Definition PromiseId := nat.

Inductive PromiseStatus : Type :=
  | Pending
  | Fulfilled (handle : Handle)
  | Rejected.

Record TransportState : Type := mkState
  { transport : option Handle;
    initPromise : option PromiseId;
    type : option string }.

(** Where a suspended call waits. *)
Inductive Suspended : Type :=
  | AwaitInitPromise (p : PromiseId)
      (* [return await transportState.initPromise;] *)
  | AwaitCreate (p : PromiseId) (type : string).
      (* [transportState.transport = await transportState.initPromise;] *)

Definition awaited (k : Suspended) : PromiseId :=
  match k with
  | AwaitInitPromise p => p
  | AwaitCreate p _ => p
  end.

Record World : Type := mkWorld
  { transportState : TransportState;
    created : list PromiseStatus;
      (* one entry per call of [TransportWebHID.create()] *)
    waiting : list Suspended;
    finished : list (Completion Handle)
      (* what the calls that have ended ended with, oldest first *) }.

Definition initial : World :=
  {| transportState :=
       {| transport := None; initPromise := None; type := None |};
     created := [];
     waiting := [];
     finished := [] |}.

(** [transportState.type == type && transportState.transport]: the
    stored handle when the test succeeds (a handle is an object, so a
    stored one is truthy). *)
Definition sameKindReady (st : TransportState) (kind : string)
    : option Handle :=
  match type st, transport st with
  | Some t, Some h => if String.eqb t kind then Some h else None
  | _, _ => None
  end.

(** A call of [initTransport(kind)], up to its return or first [await]. *)
Definition call (kind : string) (w : World) : World :=
  let st := transportState w in
  match sameKindReady st kind with
  | Some h =>
      {| transportState := st; created := created w;
         waiting := waiting w;
         finished := finished w ++ [Returned h] |}
  | None =>
      match initPromise st with
      | Some p =>
          {| transportState := st; created := created w;
             waiting := waiting w ++ [AwaitInitPromise p];
             finished := finished w |}
      | None =>
          let p := List.length (created w) in
          {| transportState :=
               {| transport := transport st;
                  initPromise := Some p;
                  type := type st |};
             created := created w ++ [Pending];
             waiting := waiting w ++ [AwaitCreate p kind];
             finished := finished w |}
      end
  end.

(** The rest of a suspended call, once the promise it awaits has
    settled with [outcome]. *)
Definition continue (k : Suspended) (outcome : PromiseStatus)
    (rest : list Suspended) (w : World) : option World :=
  match outcome with
  | Pending => None
  | Rejected =>
      Some {| transportState := transportState w; created := created w;
              waiting := rest;
              finished := finished w ++ [Threw Foreign] |}
  | Fulfilled h =>
      match k with
      | AwaitInitPromise _ =>
          Some {| transportState := transportState w;
                  created := created w;
                  waiting := rest;
                  finished := finished w ++ [Returned h] |}
      | AwaitCreate _ kind =>
          Some {| transportState :=
                    {| transport := Some h;
                       initPromise := initPromise (transportState w);
                       type := Some kind |};
                  created := created w;
                  waiting := rest;
                  finished := finished w ++ [Returned h] |}
      end
  end.

(** Resume the [n]-th suspended call. *)
Definition resume (n : nat) (w : World) : option World :=
  match nth_error (waiting w) n with
  | None => None
  | Some k =>
      match nth_error (created w) (awaited k) with
      | None => None
      | Some outcome =>
          continue k outcome
            (firstn n (waiting w) ++ skipn (S n) (waiting w)) w
      end
  end.

Fixpoint replace {A : Type} (n : nat) (x : A) (l : list A) : list A :=
  match l, n with
  | [], _ => []
  | _ :: rest, O => x :: rest
  | y :: rest, S m => y :: replace m x rest
  end.

(** The device layer settles a pending promise of [create]. *)
Definition settle (p : PromiseId) (outcome : PromiseStatus) (w : World)
    : option World :=
  match nth_error (created w) p, outcome with
  | Some Pending, Fulfilled _ | Some Pending, Rejected =>
      Some {| transportState := transportState w;
              created := replace p outcome (created w);
              waiting := waiting w;
              finished := finished w |}
  | _, _ => None
  end.

Inductive step : World -> World -> Prop :=
  | step_call (kind : string) (w : World) :
      step w (call kind w)
  | step_settle (p : PromiseId) (outcome : PromiseStatus) (w w' : World) :
      settle p outcome w = Some w' -> step w w'
  | step_resume (n : nat) (w w' : World) :
      resume n w = Some w' -> step w w'.

Inductive steps : World -> World -> Prop :=
  | steps_refl (w : World) : steps w w
  | steps_then (w w' w'' : World) :
      steps w w' -> step w' w'' -> steps w w''.

Definition reachable (w : World) : Prop := steps initial w.

(** A suspended call that shares the one promise of [create]. *)
Definition sharesFirst (k : Suspended) : Prop := k = AwaitInitPromise 0.

(** What an ended call ended with agrees with how the promise settled. *)
Definition agrees (s : PromiseStatus) (o : Completion Handle) : Prop :=
  match s with
  | Pending => False
  | Fulfilled h => o = Returned h
  | Rejected => o = Threw Foreign
  end.

(** The shape of every reachable world: before any call nothing is
    stored; afterwards there is exactly one promise, [initPromise] holds
    it, the call that created it waits first in line (with no handle and
    no kind stored) until it is resumed, and all other suspended calls
    share that promise. *)
Definition invariant (w : World) : Prop :=
  match created w with
  | [] =>
      transportState w
      = {| transport := None; initPromise := None; type := None |}
      /\ waiting w = [] /\ finished w = []
  | [s] =>
      initPromise (transportState w) = Some 0%nat
      /\ (forall h, transport (transportState w) = Some h -> s = Fulfilled h)
      /\ Forall (agrees s) (finished w)
      /\ ((exists kind rest,
             waiting w = AwaitCreate 0 kind :: rest
             /\ Forall sharesFirst rest
             /\ transport (transportState w) = None
             /\ type (transportState w) = None)
          \/ Forall sharesFirst (waiting w))
  | _ :: _ :: _ => False
  end.

(** The same steps as events, to run a schedule. *)
Inductive Event : Type :=
  | Call (kind : string)
  | Settle (p : PromiseId) (outcome : PromiseStatus)
  | Resume (n : nat).

Definition apply (e : Event) (w : World) : option World :=
  match e with
  | Call kind => Some (call kind w)
  | Settle p outcome => settle p outcome w
  | Resume n => resume n w
  end.

Fixpoint run (schedule : list Event) (w : World) : option World :=
  match schedule with
  | [] => Some w
  | e :: later =>
      match apply e w with
      | Some w' => run later w'
      | None => None
      end
  end.

End Session.

(** ** More of the selector's loop *)

(** The test before [break], for the pass that has consumed the first [j]
    candidates of [l]: the fee, total and number selected as they stand
    there. *)
Definition stopsAfter (amount : Z) (feeIncluded : bool)
    (l : list UtxoInfo) (j : nat) : bool :=
  let fee := 239 + 690 + 1118 * Z.of_nat j in
  let total := addedUp 0 (firstn j l) in
  let targetAmount := if feeIncluded then jsSub amount fee else amount in
  let totalSpend := jsAdd targetAmount fee in
  (total =? totalSpend) || ((total >? totalSpend) && (1 <? Z.of_nat j)).

(** The locals when the loop has consumed exactly [pre]. *)
Definition consumed (pre : list UtxoInfo) (vars : LoopVars) : Prop :=
  var_fee vars = 239 + 690 + 1118 * Z.of_nat (List.length pre)
  /\ var_total vars = addedUp 0 pre
  /\ var_selected vars = pre.

(** Sum of a list of values. *)
Definition sumValues (l : list Z) : Z := fold_right Z.add 0 l.

(** ** fetchAddressDetails *)

(** [array.sort(compare)]: the sort is stable, so with a consistent
    comparator its result is the one an insertion from the right gives:
    an element goes before the first one it does not compare greater
    than. *)
Fixpoint insertSorted {A : Type} (compare : A -> A -> Z) (x : A)
    (l : list A) : list A :=
  match l with
  | [] => [x]
  | y :: rest =>
      if compare x y <=? 0 then x :: y :: rest
      else y :: insertSorted compare x rest
  end.

Definition Array_sort {A : Type} (compare : A -> A -> Z) (l : list A)
    : list A :=
  fold_right (insertSorted compare) [] l.

(** [(a, b) => b.amount - a.amount] *)
Definition byDecreasingAmount (a b : UtxoInfo) : Z :=
  Utxo.amount b - Utxo.amount a.

(** An element of the relay's [/utxos] reply, as far as it is read. *)
Module Relay.
Record Utxo : Type := mk
  { outpoint_transactionId : string;
    outpoint_index : Z;
    utxoEntry_amount : string }.
End Relay.

Module Details.
Record AddressDetails (Balance PathIndex : Type) : Type := mk
  { address : string;
    derivationPath : string;
    balance : Balance;
    utxos : list UtxoInfo;
    addressType : PathIndex;
    addressIndex : PathIndex }.
Arguments mk {Balance PathIndex}.
Arguments address {Balance PathIndex}.
Arguments derivationPath {Balance PathIndex}.
Arguments balance {Balance PathIndex}.
Arguments utxos {Balance PathIndex}.
Arguments addressType {Balance PathIndex}.
Arguments addressIndex {Balance PathIndex}.
End Details.

Section AddressDetails.
(** The relay's two replies for an address, [None] when the request
    fails: the [balance] field of the balance reply, and the list of
    unspent outputs. *)
Variable Balance : Type.
Variable getBalance : string -> option Balance.
Variable getUtxos : string -> option (list Relay.Utxo).

(** [Number] on the relay's amount strings, and on the path elements. *)
Variable amountOf : string -> Z.
Variable PathIndex : Type.
Variable Number : option string -> PathIndex.

Definition fetchAddressDetails (address derivationPath : string)
    : Completion (Details.AddressDetails Balance PathIndex) :=
  match getBalance address with
  | None => Threw Foreign
  | Some balance =>
      match getUtxos address with
      | None => Threw Foreign
      | Some utxoData =>
          let utxos :=
            Array_sort byDecreasingAmount
              (map (fun utxo =>
                      {| Utxo.prevTxId := Relay.outpoint_transactionId utxo;
                         Utxo.outpointIndex := Relay.outpoint_index utxo;
                         Utxo.amount :=
                           amountOf (Relay.utxoEntry_amount utxo) |})
                   utxoData) in
          let path := split "/" derivationPath in
          Returned
            {| Details.address := address;
               Details.derivationPath := derivationPath;
               Details.balance := balance;
               Details.utxos := utxos;
               Details.addressType := Number (nth_error path 3);
               Details.addressIndex := Number (nth_error path 4) |}
      end
  end.
End AddressDetails.

(** [pieces.join(sep)], the inverse of [split] on pieces without [sep]. *)
Fixpoint join (sep : ascii) (pieces : list string) : string :=
  match pieces with
  | [] => EmptyString
  | [piece] => piece
  | piece :: more => (piece ++ String sep (join sep more))%string
  end.

(** Whether [c] occurs in [s]. *)
Fixpoint occurs (c : ascii) (s : string) : bool :=
  match s with
  | EmptyString => false
  | String d rest => Ascii.eqb d c || occurs c rest
  end.

(** ** getAddress *)

Module Key.
Record AddressInfo (Address : Type) : Type := mk
  { address : Address;
    publicKey : Buffer;
    fullPublicKey : Buffer;
    compressedPublicKey : Buffer;
    chainCode : Buffer }.
Arguments mk {Address}.
Arguments address {Address}.
Arguments publicKey {Address}.
Arguments fullPublicKey {Address}.
Arguments compressedPublicKey {Address}.
Arguments chainCode {Address}.
End Key.

(** An element of the array given to [Buffer.from]: the number modulo
    256, and 0 for [NaN]. *)
Definition toUint8 (n : option N) : Byte.byte :=
  match n with
  | Some v =>
      match Byte.of_N (v mod 256) with
      | Some b => b
      | None => Byte.x00
      end
  | None => Byte.x00
  end.

Section GetAddress.
(** [publicKeyToAddress] of [./karlsen-util] ([None] when it throws) and
    [getPublicKey] of the device application. *)
Variable Address : Type.
Variable publicKeyToAddress : Buffer -> bool -> option Address.
Variable getPublicKey : string -> bool -> SendResult.

Definition getAddress (st : Session.TransportState) (path : string)
    (display : bool) : Completion (Key.AddressInfo Address) :=
  match Session.transport st with
  | None => Threw (Error "Ledger not connected")
  | Some _ =>
      match getPublicKey path display with
      | SendFailed => Threw Foreign
      | Received publicKeyBuffer =>
          let publicKey :=
            slice publicKeyBuffer (Some 1%nat) (Some 66%nat) in
          let chainCode :=
            slice publicKeyBuffer (Some 67%nat) (Some (67 + 32)%nat) in
          let yCoordParity :=
            option_map (fun b => (Byte.to_N b mod 2)%N)
              (at_index publicKeyBuffer (Some 65%nat)) in
          match
            publicKeyToAddress
              (slice publicKeyBuffer (Some 2%nat) (Some 34%nat)) false
          with
          | None => Threw Foreign
          | Some address =>
              Returned
                {| Key.address := address;
                   Key.publicKey := publicKey;
                   Key.fullPublicKey :=
                     slice publicKeyBuffer (Some 1%nat) (Some (1 + 65)%nat);
                   Key.compressedPublicKey :=
                     toUint8 (option_map (fun p => (p + 2)%N) yCoordParity)
                     :: slice publicKeyBuffer (Some 2%nat) (Some 34%nat);
                   Key.chainCode := chainCode |}
          end
      end
  end.
End GetAddress.

(** ** getAppData of the start page *)

(** What the page does to the user interface: [router.push(url)] or
    [notifications.show({title, message})]. *)
Inductive UiAction : Type :=
  | Push (url : string)
  | Show (title message : string).

(** What the [catch] of [getAppData] tells apart in an exception: its
    class, and its [message] ([None] when it has none). *)
Inductive Caught : Type :=
  | TransportOpenUserCancelled
  | OtherError (message : option string).

(** The [catch] block. *)
Definition onCaught (e : Caught) : UiAction :=
  match e with
  | TransportOpenUserCancelled =>
      Show "Action Required"
        "WebUSB is not supported in this browser. Please use a compatible browser."
  | OtherError (Some (String c rest)) =>
      Show "Action Required"
        ("Could not interact with the Ledger device: " ++ String c rest)
  | OtherError _ =>
      Show "Action Required" "Could not interact with the Ledger device."
  end.

Section GetAppData.
(** [await initTransport(deviceType)]: the transport, or what it threw;
    and what a failing [transport.send] throws. *)
Variable initTransport : string -> Caught + Transport.
Variable sendError : Caught.

Definition getAppData (deviceType : string) : Completion UiAction :=
  if String.eqb deviceType "demo" then
    Returned (Push ("/wallet?deviceType=" ++ deviceType))
  else if negb (String.eqb deviceType "usb")
          && negb (String.eqb deviceType "bluetooth") then
    Threw
      (Error
         ("Invalid device type: " ++ deviceType
            ++ " - must be " ++ String (ascii_of_nat 34) "usb"
            ++ String (ascii_of_nat 34) " or "
            ++ String (ascii_of_nat 34) "bluetooth"
            ++ String (ascii_of_nat 34) EmptyString))
  else
    match initTransport deviceType with
    | inl e => Returned (onCaught e)
    | inr transport =>
        match getAppAndVersion transport with
        | Returned app =>
            if String.eqb (name app) "Kaspa" then
              Returned (Push ("/wallet?deviceType=" ++ deviceType))
            else
              Returned
                (Show "Action Required"
                   "Please open the Kaspa app on your device.")
        | Threw (Error message) =>
            Returned (onCaught (OtherError (Some message)))
        | Threw Foreign => Returned (onCaught sendError)
        end
    end.
End GetAppData.

(** * Properties *)

(** ** Rounding *)

(** Up to 2^53 nothing is rounded. *)
Lemma roundToDouble_exact (z : Z) :
  - 2 ^ 53 <= z <= 2 ^ 53 -> roundToDouble z = z.
Proof.
  intros H. unfold roundToDouble.
  destruct (Z.abs z <=? 2 ^ 53) eqn:E; [reflexivity|].
  apply Z.leb_gt in E. lia.
Qed.

Lemma roundToDouble_opp (z : Z) : roundToDouble (- z) = - roundToDouble z.
Proof.
  unfold roundToDouble. rewrite Z.abs_opp, Z.sgn_opp.
  destruct (Z.abs z <=? 2 ^ 53); [reflexivity|]. lia.
Qed.

(** Rounding does not bring a large number below 2^53. *)
Lemma roundToDouble_large (z : Z) :
  2 ^ 53 <= z -> 2 ^ 53 <= roundToDouble z.
Proof.
  intros H. unfold roundToDouble.
  destruct (Z.abs z <=? 2 ^ 53) eqn:E; [exact H|].
  apply Z.leb_gt in E.
  rewrite Z.abs_eq in * by lia. rewrite Z.sgn_pos by lia.
  set (k := Z.log2 z - 52).
  assert (Hlog : 53 <= Z.log2 z) by (apply Z.log2_le_pow2; lia).
  assert (Hk : 1 <= k) by (unfold k; lia).
  assert (Hq : 2 ^ 52 <= z / 2 ^ k).
  { apply Z.div_le_lower_bound; [apply Z.pow_pos_nonneg; lia|].
    rewrite <- Z.pow_add_r by lia.
    replace (k + 52) with (Z.log2 z) by (unfold k; lia).
    apply Z.log2_spec. lia. }
  assert (Hp : 2 ^ 1 <= 2 ^ k) by (apply Z.pow_le_mono_r; lia).
  change (2 ^ 53) with (2 ^ 52 * 2 ^ 1) at 1.
  destruct (_ || _); nia.
Qed.

(** So rounding keeps a number on its side of every bound up to 2^53. *)
Lemma roundToDouble_above (c z : Z) :
  - 2 ^ 53 <= c <= 2 ^ 53 -> c <= z -> c <= roundToDouble z.
Proof.
  intros Hc Hz. destruct (Z_le_gt_dec z (2 ^ 53)) as [Hsmall | Hbig].
  - rewrite roundToDouble_exact by lia. exact Hz.
  - pose proof (roundToDouble_large z). lia.
Qed.

Lemma roundToDouble_below (c z : Z) :
  - 2 ^ 53 <= c <= 2 ^ 53 -> z <= c -> roundToDouble z <= c.
Proof.
  intros Hc Hz.
  pose proof (roundToDouble_above (- c) (- z)) as H.
  rewrite roundToDouble_opp in H. lia.
Qed.

(** [jsAdd] and [jsSub] against the machine: exact where the result
    fits, and rounded to the even neighbour, upwards or downwards, beyond
    2^53. *)
Example jsAdd_as_machine :
  machineAdd 9007199254738946 2047 = Some (jsAdd 9007199254738946 2047)
  /\ machineAdd 9007199254740991 4 = Some (jsAdd 9007199254740991 4)
  /\ machineAdd 9007199254743044 2047 = Some (jsAdd 9007199254743044 2047)
  /\ machineAdd 9007199254745090 5 = Some (jsAdd 9007199254745090 5)
  /\ machineAdd 18014398509481982 1 = Some (jsAdd 18014398509481982 1)
  /\ machineAdd 50000 40000 = Some (jsAdd 50000 40000)
  /\ machineAdd (-9007199254740992) (-3)
     = Some (jsAdd (-9007199254740992) (-3)).
Proof. repeat split; vm_compute; reflexivity. Qed.

Example jsSub_as_machine :
  machineSub 9007199254745090 2047 = Some (jsSub 9007199254745090 2047)
  /\ machineSub 9007199254755090 9007199254743044
     = Some (jsSub 9007199254755090 9007199254743044)
  /\ machineSub 1152921504606846976 1 = Some (jsSub 1152921504606846976 1)
  /\ machineSub (-1152921504606846976) 129
     = Some (jsSub (-1152921504606846976) 129)
  /\ machineSub 12046 2047 = Some (jsSub 12046 2047)
  /\ machineSub 0 929 = Some (jsSub 0 929).
Proof. repeat split; vm_compute; reflexivity. Qed.

(** ** The selector *)

Lemma last_after_head {A : Type} (l : list A) :
  forall x d : A, last (x :: l) d = last l x.
Proof.
  induction l as [|y l IH]; intros x d.
  - reflexivity.
  - change (last (x :: y :: l) d) with (last (y :: l) d).
    rewrite (IH y d), (IH y x). reflexivity.
Qed.

Section SelectorFacts.
Variable amount : Z.
Variable feeIncluded : bool.

Lemma sumAmounts_from (l : list UtxoInfo) (acc : Z) :
  fold_left (fun a u => a + Utxo.amount u) l acc = acc + sumAmounts l.
Proof.
  unfold sumAmounts. revert acc.
  induction l as [|u l IH]; intros acc; cbn [fold_left].
  - lia.
  - rewrite (IH (acc + Utxo.amount u)), (IH (0 + Utxo.amount u)). lia.
Qed.

Lemma sumAmounts_cons (u : UtxoInfo) (l : list UtxoInfo) :
  sumAmounts (u :: l) = Utxo.amount u + sumAmounts l.
Proof.
  unfold sumAmounts at 1. cbn [fold_left]. rewrite sumAmounts_from. lia.
Qed.

Lemma loopBody_stop (vars : LoopVars) (u : UtxoInfo) :
  snd (loopBody amount feeIncluded vars u) = true ->
  let out := fst (loopBody amount feeIncluded vars u) in
  jsAdd (if feeIncluded then jsSub amount (var_fee out) else amount)
    (var_fee out)
  <= var_total out.
Proof.
  unfold loopBody. cbn [fst snd var_fee var_total var_selected].
  intros H. apply orb_true_iff in H.
  destruct H as [H | H].
  - apply Z.eqb_eq in H. lia.
  - apply andb_true_iff in H. destruct H as [H _].
    apply Z.gtb_lt in H. lia.
Qed.

Lemma addedUp_snoc (acc : Z) (pre : list UtxoInfo) (u : UtxoInfo) :
  addedUp acc (pre ++ [u]) = jsAdd (addedUp acc pre) (Utxo.amount u).
Proof.
  unfold addedUp. rewrite fold_left_app. reflexivity.
Qed.

Lemma forOf_leftAfter (l : list UtxoInfo) :
  forall vars, exists k,
    leftAfter amount feeIncluded vars l k (forOf amount feeIncluded vars l).
Proof.
  induction l as [|u l IH]; intros vars.
  - exists 0%nat. cbn [forOf]. unfold leftAfter, addedUp.
    cbn [firstn List.length fold_left]. rewrite app_nil_r.
    refine (conj _ (conj _ (conj _ (conj _ _)))); try lia; auto.
  - cbn [forOf].
    pose proof (loopBody_stop vars u) as Hstop.
    destruct (loopBody amount feeIncluded vars u) as [vars' stop] eqn:E.
    assert (Hf : var_fee vars' = var_fee vars + 1118
                 /\ var_total vars'
                    = jsAdd (var_total vars) (Utxo.amount u)
                 /\ var_selected vars' = var_selected vars ++ [u]).
    { unfold loopBody in E. injection E as E1 _. subst vars'.
      cbn [var_fee var_total var_selected]. auto. }
    destruct Hf as (Hfee & Htot & Hsel).
    destruct stop.
    + exists 1%nat. unfold leftAfter, addedUp.
      cbn [firstn List.length fold_left].
      refine (conj _ (conj _ (conj _ (conj _ _)))); try lia; auto.
    + destruct (IH vars') as (k & Hk & Hkfee & Hktot & Hksel & Hwhy).
      exists (S k). unfold leftAfter. cbn [firstn List.length].
      refine (conj _ (conj _ (conj _ (conj _ _)))); [lia | lia | | | ].
      * rewrite Hktot, Htot. reflexivity.
      * rewrite Hksel, Hsel, <- app_assoc. reflexivity.
      * destruct Hwhy as [-> | Hwhy]; [now left | now right].
Qed.

(** The loop's last state is the last entry of its trace. *)
Lemma forOf_last_of_trace (l : list UtxoInfo) :
  forall vars,
    forOf amount feeIncluded vars l
    = last (forOfTrace amount feeIncluded vars l) vars.
Proof.
  induction l as [|u l IH]; intros vars; cbn [forOf forOfTrace].
  - reflexivity.
  - destruct (loopBody amount feeIncluded vars u) as [vars' stop].
    destruct stop.
    + reflexivity.
    + rewrite IH. symmetry. apply last_after_head.
Qed.

(** Every pass adds 1118 to the fee: the [n]-th entry of the trace
    carries [n + 1] such additions. *)
Lemma forOfTrace_fee (l : list UtxoInfo) :
  forall vars n out,
    nth_error (forOfTrace amount feeIncluded vars l) n = Some out ->
    var_fee out = var_fee vars + 1118 * (Z.of_nat n + 1)
    /\ List.length (var_selected out)
       = (List.length (var_selected vars) + n + 1)%nat.
Proof.
  induction l as [|u l IH]; intros vars n out; cbn [forOfTrace].
  - destruct n; discriminate.
  - destruct (loopBody amount feeIncluded vars u) as [vars' stop] eqn:E.
    unfold loopBody in E. injection E as E1 _.
    destruct n as [|n]; cbn [nth_error].
    + intros [= <-]. subst vars'. cbn [var_fee var_selected].
      rewrite length_app. cbn [List.length]. lia.
    + intros H. destruct stop; [destruct n; discriminate|].
      apply IH in H. subst vars'. cbn [var_fee var_selected] in H.
      rewrite length_app in H. cbn [List.length] in H. lia.
Qed.

Lemma sumAmounts_app (l1 l2 : list UtxoInfo) :
  sumAmounts (l1 ++ l2) = sumAmounts l1 + sumAmounts l2.
Proof.
  unfold sumAmounts at 1. rewrite fold_left_app.
  rewrite (sumAmounts_from l2). reflexivity.
Qed.

Lemma sumAmounts_nonnegative (l : list UtxoInfo) :
  Forall (fun u => 0 <= Utxo.amount u) l -> 0 <= sumAmounts l.
Proof.
  induction 1 as [|u l Hu _ IH].
  - reflexivity.
  - rewrite sumAmounts_cons. lia.
Qed.

Lemma sumAmounts_prefix (l : list UtxoInfo) (k : nat) :
  Forall (fun u => 0 <= Utxo.amount u) l ->
  0 <= sumAmounts (firstn k l) <= sumAmounts l.
Proof.
  intros Hl.
  pose proof Hl as Hparts. rewrite <- (firstn_skipn k l) in Hparts.
  apply Forall_app in Hparts. destruct Hparts as (H1 & H2).
  apply sumAmounts_nonnegative in H1, H2.
  rewrite <- (firstn_skipn k l) at 3. rewrite sumAmounts_app. lia.
Qed.

(** Non-negative amounts whose sum stays within 2^53 add up exactly. *)
Lemma addedUp_exact (l : list UtxoInfo) :
  forall acc,
    0 <= acc ->
    Forall (fun u => 0 <= Utxo.amount u) l ->
    acc + sumAmounts l <= 2 ^ 53 ->
    addedUp acc l = acc + sumAmounts l.
Proof.
  induction l as [|u l IH]; intros acc Hacc Hl Hsum.
  - unfold addedUp, sumAmounts. cbn [fold_left]. lia.
  - inversion Hl as [|? ? Hu Hrest]; subst.
    pose proof (sumAmounts_nonnegative l Hrest) as Hpos.
    rewrite sumAmounts_cons in *.
    change (addedUp acc (u :: l))
      with (addedUp (jsAdd acc (Utxo.amount u)) l).
    unfold jsAdd. rewrite roundToDouble_exact by lia.
    rewrite IH by (assumption || lia). lia.
Qed.
End SelectorFacts.

(** C1, as the claim states it, fails: in scenario A the fee is neither
    1047 after the first candidate nor 2165 after the second, and the
    returned fee is not 2165. *)
Lemma scenarioA_fee_is_not_2165 :
  map var_fee (forOfTrace 60000 false initialVars scenarioA) <> [1047; 2165]
  /\ fee (selectUtxos 60000 scenarioA false) <> 2165.
Proof. split; vm_compute; discriminate. Qed.

(** C1 (amended): for [selectUtxos(60000, [{amount:50000},{amount:40000}],
    false)] the running fee is 2047 after the first candidate, where the
    total 50000 is below 60000 + 2047 and the loop goes on; it is 3165
    after the second, where the total 90000 is at least 60000 + 3165 with
    two outputs selected and the loop stops; the result has
    [hasEnough = true], exactly the two candidates selected, fee 3165 and
    total 90000. *)
Theorem scenarioA_selection :
  let first := {| var_fee := 2047; var_total := 50000;
                  var_selected := [coin 50000] |} in
  let second := {| var_fee := 3165; var_total := 90000;
                   var_selected := [coin 50000; coin 40000] |} in
  loopBody 60000 false initialVars (coin 50000) = (first, false)
  /\ (var_total first <? 60000 + var_fee first) = true
  /\ loopBody 60000 false first (coin 40000) = (second, true)
  /\ (var_total second >=? 60000 + var_fee second) = true
  /\ forOfTrace 60000 false initialVars scenarioA = [first; second]
  /\ selectUtxos 60000 scenarioA false
     = {| hasEnough := true; utxos := scenarioA; fee := 3165;
          total := 90000 |}.
Proof. cbv zeta. repeat split. Qed.

(** C2: the returned fee is [239 + 690 + 1118 * k] for [k] selected
    outputs; so of two results the one with more selected outputs has the
    strictly larger fee, and along the loop the running fee (which is the
    same expression in the number selected so far, and ends as the
    returned fee) never decreases from one pass to a later one. *)
Theorem selectUtxos_fee_linear
    (amount : Z) (utxosInput : list UtxoInfo) (feeIncluded : bool) :
  let r := selectUtxos amount utxosInput feeIncluded in
  let passes :=
    initialVars :: forOfTrace amount feeIncluded initialVars utxosInput in
  fee r = 239 + 690 + 1118 * Z.of_nat (List.length (utxos r))
  /\ (forall amount' utxosInput' feeIncluded',
        let r' := selectUtxos amount' utxosInput' feeIncluded' in
        (List.length (utxos r) < List.length (utxos r'))%nat ->
        fee r < fee r')
  /\ (forall i vars,
        nth_error passes i = Some vars ->
        var_fee vars
        = 239 + 690 + 1118 * Z.of_nat (List.length (var_selected vars)))
  /\ (forall i j before after,
        (i <= j)%nat ->
        nth_error passes i = Some before ->
        nth_error passes j = Some after ->
        var_fee before <= var_fee after)
  /\ var_fee (last passes initialVars) = fee r.
Proof.
  assert (Hlin : forall a l f,
             fee (selectUtxos a l f)
             = 239 + 690
               + 1118 * Z.of_nat (List.length (utxos (selectUtxos a l f)))).
  { intros a l f. unfold selectUtxos. cbn [fee utxos].
    destruct (forOf_leftAfter a f l initialVars)
      as (k & Hk & Hfee & _ & Hsel & _).
    rewrite Hfee, Hsel. cbn [initialVars var_fee var_selected app].
    rewrite length_firstn, Nat.min_l by exact Hk. reflexivity. }
  assert (Hpass : forall i vars,
             nth_error
               (initialVars
                  :: forOfTrace amount feeIncluded initialVars utxosInput) i
             = Some vars ->
             var_fee vars = 929 + 1118 * Z.of_nat i
             /\ List.length (var_selected vars) = i).
  { intros [|i] vars; cbn [nth_error].
    - intros [= <-]. split; reflexivity.
    - intros H. apply forOfTrace_fee in H.
      cbn [initialVars var_fee var_selected List.length] in H. lia. }
  cbv zeta. split; [apply Hlin|]. split; [|split; [|split]].
  - intros a' l' f' Hlt. rewrite (Hlin amount), (Hlin a'). lia.
  - intros i vars H. apply Hpass in H. destruct H as [-> ->]. lia.
  - intros i j before after Hij Hi Hj.
    apply Hpass in Hi. apply Hpass in Hj. lia.
  - unfold selectUtxos. cbn [fee].
    rewrite last_after_head, <- forOf_last_of_trace. reflexivity.
Qed.

(** C3, as the claim states it, fails, in two ways.  One candidate of
    1000 is a sorted list whose sum covers the target 1000, and yet the
    selector reports insufficient funds, the fee of 2047 not being
    covered.  And with the fee included in the target, one candidate of
    9007199254745090 does not cover the target 9007199254745090: beyond
    2^53 the target less the fee plus the fee rounds to 9007199254745092. *)
Lemma target_within_sum_not_enough :
  (sortedDescending [coin 1000] = true
   /\ 1000 <= sumAmounts [coin 1000]
   /\ hasEnough (selectUtxos 1000 [coin 1000] false) = false)
  /\ (sortedDescending [coin 9007199254745090] = true
      /\ 9007199254745090 <= sumAmounts [coin 9007199254745090]
      /\ hasEnough
           (selectUtxos 9007199254745090 [coin 9007199254745090] true)
         = false).
Proof. repeat split; vm_compute; discriminate. Qed.

(** C3 (amended): for every candidate list sorted by descending amount,
    with non-negative amounts and a non-negative target amount that,
    together with the fee of all candidates, stay within 2^53 (where the
    code's sums are exact), [selectUtxos] returns [hasEnough = true] when
    the sum of all candidate amounts covers the target amount in case the
    fee is included in it, and covers the target amount plus the returned
    fee in case it is not. *)
Theorem selectUtxos_enough_when_covered
    (amount : Z) (utxosInput : list UtxoInfo) (feeIncluded : bool) :
  sortedDescending utxosInput = true ->
  exactRange amount utxosInput ->
  (if feeIncluded then amount
   else amount + fee (selectUtxos amount utxosInput feeIncluded))
  <= sumAmounts utxosInput ->
  hasEnough (selectUtxos amount utxosInput feeIncluded) = true.
Proof.
  intros _ (Hamount & Hall & Hrange). unfold selectUtxos.
  cbn [hasEnough fee].
  destruct (forOf_leftAfter amount feeIncluded utxosInput initialVars)
    as (k & Hk & Hfee & Htot & _ & Hwhy).
  intros Hcover. apply Z.geb_le.
  destruct Hwhy as [-> | Hwhy]; [|exact Hwhy].
  rewrite firstn_all in Htot.
  pose proof (sumAmounts_nonnegative utxosInput Hall) as Hpos.
  rewrite (addedUp_exact utxosInput) in Htot
    by (cbn [initialVars var_total]; (assumption || lia)).
  cbn [initialVars var_fee var_total] in Hfee, Htot.
  rewrite Htot. rewrite Hfee in *. unfold jsAdd, jsSub.
  destruct feeIncluded.
  - rewrite (roundToDouble_exact (amount - _)) by lia.
    rewrite roundToDouble_exact by lia. lia.
  - rewrite roundToDouble_exact by lia. lia.
Qed.

Lemma selectUtxos_enough_when_covered_witness :
  hasEnough
    (selectUtxos 90000 (coin 100000 :: repeat (coin 500) 40) false)
  = true.
Proof.
  apply (selectUtxos_enough_when_covered 90000
           (coin 100000 :: repeat (coin 500) 40) false).
  - reflexivity.
  - unfold exactRange. split; [lia|]. split; [|vm_compute; discriminate].
    repeat constructor; vm_compute; discriminate.
  - vm_compute. discriminate.
Defined.

(** C4, as the claim states it, fails: for the candidates
    9007199254740991 and 4, both selected, the returned total is
    9007199254740996, the double nearest to their sum 9007199254740995. *)
Lemma selected_total_is_rounded :
  let r :=
    selectUtxos 9007199254737831 [coin 9007199254740991; coin 4] false in
  utxos r = [coin 9007199254740991; coin 4]
  /\ total r = 9007199254740996
  /\ sumAmounts (utxos r) = 9007199254740995.
Proof. cbv zeta. repeat split. Qed.

(** C4 (amended): the returned total is the sum of the amounts of the
    returned selected outputs as the loop adds them up, from the left and
    each sum rounded to a double; whatever the amount, the candidates and
    the flag, it is their exact sum when the selected amounts are
    non-negative and that sum is at most 2^53. *)
Theorem selectUtxos_total_is_sum
    (amount : Z) (utxosInput : list UtxoInfo) (feeIncluded : bool) :
  let r := selectUtxos amount utxosInput feeIncluded in
  total r = addedUp 0 (utxos r)
  /\ (Forall (fun u => 0 <= Utxo.amount u) (utxos r) ->
      sumAmounts (utxos r) <= 2 ^ 53 ->
      total r = sumAmounts (utxos r)).
Proof.
  cbv zeta. unfold selectUtxos. cbn [total utxos].
  destruct (forOf_leftAfter amount feeIncluded utxosInput initialVars)
    as (k & _ & _ & Htot & Hsel & _).
  cbn [initialVars var_total var_selected app] in Htot, Hsel.
  rewrite Htot, Hsel. split; [reflexivity|].
  intros Hall Hsum. rewrite addedUp_exact by (assumption || lia). lia.
Qed.

(** C5, as the claim states it, fails: with no candidates, target 0 and
    the fee included in the target, the selector reports sufficient
    funds. *)
Lemma empty_candidates_enough_for_zero :
  hasEnough (selectUtxos 0 [] true) = true.
Proof. reflexivity. Qed.

(** C5 (amended): with an empty candidate list [selectUtxos] returns, for
    every target amount and flag, an empty selection, total 0 and the
    base fee [239 + 690]; [hasEnough] is false exactly when the target
    amount is positive (fee included) or exceeds [-(239 + 690)] (fee not
    included), so in particular for every positive target amount. *)
Theorem selectUtxos_no_candidates (amount : Z) (feeIncluded : bool) :
  let r := selectUtxos amount [] feeIncluded in
  utxos r = []
  /\ fee r = 239 + 690
  /\ total r = 0
  /\ (hasEnough r = false
      <-> 0 < (if feeIncluded then amount else amount + (239 + 690)))
  /\ (0 < amount -> hasEnough r = false).
Proof.
  cbv zeta. unfold selectUtxos. cbn [forOf initialVars var_fee var_total
    var_selected hasEnough utxos fee total].
  assert (Hiff :
            (0 >=? jsAdd (if feeIncluded then jsSub amount (239 + 690)
                          else amount) (239 + 690)) = false
            <-> 0 < (if feeIncluded then amount else amount + (239 + 690))).
  { rewrite Z.geb_leb, Z.leb_gt. unfold jsAdd, jsSub.
    destruct feeIncluded; split; intros H.
    - destruct (Z_lt_le_dec 0 amount) as [Hpos | Hneg]; [exact Hpos|].
      pose proof (roundToDouble_below (- 929) (amount - (239 + 690))
                    ltac:(lia) ltac:(lia)) as Ht.
      pose proof (roundToDouble_below 0
                    (roundToDouble (amount - (239 + 690)) + (239 + 690))
                    ltac:(lia) ltac:(lia)).
      lia.
    - pose proof (roundToDouble_above (- 928) (amount - (239 + 690))
                    ltac:(lia) ltac:(lia)) as Ht.
      pose proof (roundToDouble_above 1
                    (roundToDouble (amount - (239 + 690)) + (239 + 690))
                    ltac:(lia) ltac:(lia)).
      lia.
    - destruct (Z_lt_le_dec 0 (amount + (239 + 690))) as [Hpos | Hneg];
        [exact Hpos|].
      pose proof (roundToDouble_below 0 (amount + (239 + 690))
                    ltac:(lia) ltac:(lia)).
      lia.
    - pose proof (roundToDouble_above 1 (amount + (239 + 690))
                    ltac:(lia) ltac:(lia)).
      lia. }
  repeat split; try apply Hiff.
  intros Hpos. apply Hiff. destruct feeIncluded; lia.
Qed.

(** C9: the returned selection is a prefix of the candidate list: its
    first [k] elements in their order, for some [k] from 0 to its
    length. *)
Theorem selectUtxos_selects_prefix
    (amount : Z) (utxosInput : list UtxoInfo) (feeIncluded : bool) :
  exists k : nat,
    (0 <= k <= List.length utxosInput)%nat
    /\ utxos (selectUtxos amount utxosInput feeIncluded)
       = firstn k utxosInput.
Proof.
  destruct (forOf_leftAfter amount feeIncluded utxosInput initialVars)
    as (k & Hk & _ & _ & Hsel & _).
  exists k. split; [lia|]. unfold selectUtxos. cbn [utxos].
  rewrite Hsel. reflexivity.
Qed.

(** The selector beyond 2^53, where sums round: a target and fee that
    round down to the candidate; a total that rounds up; a target that,
    less the fee and plus it again, rounds past the candidate; the same
    with a second candidate; a stop after one candidate where an exact sum
    would go on; and a total accepted below the target. *)
Example selectUtxos_beyond_exact_range :
  hasEnough (selectUtxos 9007199254738946 [coin 9007199254740992] false)
  = true
  /\ total (selectUtxos 9007199254737831
             [coin 9007199254740991; coin 4] false)
     = 9007199254740996
  /\ hasEnough (selectUtxos 9007199254745090 [coin 9007199254745090] true)
     = false
  /\ utxos (selectUtxos 9007199254745090
             [coin 9007199254745090; coin 5] true)
     = [coin 9007199254745090; coin 5]
  /\ utxos (selectUtxos 9007199254738946
             [coin 9007199254740992; coin 5] false)
     = [coin 9007199254740992]
  /\ selectUtxos 9007199254745090 [coin 9007199254740992; coin 4096] true
     = {| hasEnough := true;
          utxos := [coin 9007199254740992; coin 4096];
          fee := 3165;
          total := 9007199254745088 |}.
Proof. repeat split. Qed.

(** The selector's sums and the builder's differences in the exact
    range. *)
Lemma exactRange_selection (amount : Z) (utxosInput : list UtxoInfo)
    (feeIncluded : bool) :
  exactRange amount utxosInput ->
  let selection := selectUtxos amount utxosInput feeIncluded in
  0 <= total selection <= sumAmounts utxosInput
  /\ total selection = sumAmounts (utxos selection)
  /\ 239 + 690 <= fee selection
     <= 239 + 690 + 1118 * Z.of_nat (List.length utxosInput)
  /\ jsSub amount (fee selection) = amount - fee selection
  /\ jsAdd (amount - fee selection) (fee selection) = amount
  /\ jsAdd amount (fee selection) = amount + fee selection.
Proof.
  intros (Hamount & Hall & Hrange). cbv zeta. unfold selectUtxos.
  cbn [total fee utxos].
  destruct (forOf_leftAfter amount feeIncluded utxosInput initialVars)
    as (k & Hk & Hfee & Htot & Hsel & _).
  cbn [initialVars var_fee var_total var_selected app] in Hfee, Htot, Hsel.
  pose proof (sumAmounts_prefix utxosInput k Hall) as Hprefix.
  pose proof (sumAmounts_nonnegative utxosInput Hall) as Hpos.
  assert (Hparts : Forall (fun u => 0 <= Utxo.amount u) (firstn k utxosInput)).
  { pose proof Hall as H. rewrite <- (firstn_skipn k utxosInput) in H.
    apply Forall_app in H. tauto. }
  rewrite addedUp_exact in Htot by (assumption || lia).
  rewrite Htot, Hfee, Hsel. unfold jsAdd, jsSub.
  rewrite !roundToDouble_exact by lia. lia.
Qed.

(** ** The builder *)

(** On integers [Math.round] and the [toFixed(8)] round trip change
    nothing. *)
Lemma Math_round_integer (x : Z) : Math_round x = x.
Proof.
  unfold Math_round, Qplus, inject_Z, Qfloor.
  cbn [Qnum Qden Pos.mul Z.mul].
  change (Z.pos (1 * 2)) with 2.
  symmetry. apply (Z.div_unique (x * 2 + 1 * 1) 2 x 1); lia.
Qed.

Lemma numberToFixed8_integer (x : Z) : numberToFixed8 x = x.
Proof. unfold numberToFixed8. apply Z.div_mul. lia. Qed.

Section BuilderFacts.
Variable Script : Type.
Variable addressToScriptPublicKey : string -> option Script.
Variable PathIndex : Type.
Variable Number : option string -> PathIndex.

Local Abbreviation build :=
  (createTransaction Script addressToScriptPublicKey PathIndex Number).

(** With sufficient funds the builder never ends in its own error. *)
Lemma build_enough_not_amount_error
    (amount : Z) (sendTo : string) (utxosInput : list UtxoInfo)
    (derivationPath changeAddress : string) (feeIncluded : bool) :
  hasEnough (selectUtxos amount utxosInput feeIncluded) = true ->
  build amount sendTo utxosInput derivationPath changeAddress feeIncluded
  <> Threw (Error "Amount too high.").
Proof.
  intros Henough. unfold createTransaction.
  rewrite Henough. cbn [negb]. unfold scriptOf.
  destruct (addressToScriptPublicKey sendTo); cbn [bind]; [|discriminate].
  match goal with |- context [if ?c then _ else _] => destruct c end;
    cbn [bind]; [|discriminate].
  destruct (addressToScriptPublicKey changeAddress); cbn [bind];
    discriminate.
Qed.

(** C6: [createTransaction] throws its insufficient-funds error exactly
    when [selectUtxos] reports [hasEnough = false] for the same amount,
    candidates and flag, and then it returns no transaction.
    ([selectUtxos] itself is a function into its result record: it has
    no other way to end, and [hasEnough] is its only sign of
    insufficiency.) *)
Theorem createTransaction_throws_iff_not_enough
    (amount : Z) (sendTo : string) (utxosInput : list UtxoInfo)
    (derivationPath changeAddress : string) (feeIncluded : bool) :
  let outcome :=
    build amount sendTo utxosInput derivationPath changeAddress
      feeIncluded in
  (outcome = Threw (Error "Amount too high.")
   <-> hasEnough (selectUtxos amount utxosInput feeIncluded) = false)
  /\ (hasEnough (selectUtxos amount utxosInput feeIncluded) = false ->
      forall built, outcome <> Returned built).
Proof.
  cbv zeta. split; [split|].
  - intros Hthrew.
    destruct (hasEnough (selectUtxos amount utxosInput feeIncluded)) eqn:E;
      [|reflexivity].
    exfalso. revert Hthrew. now apply build_enough_not_amount_error.
  - intros Hnot. unfold createTransaction. rewrite Hnot. reflexivity.
  - intros Hnot built. unfold createTransaction. rewrite Hnot.
    discriminate.
Qed.

(** C7: in a successful [createTransaction] call, with [changeAmount]
    the selected total minus the primary output's value minus the fee, as
    the code subtracts them, the returned fee is the selector's (nothing
    is added to it), the first output pays the primary value (the amount,
    or the amount less the fee as the code subtracts it) to [sendTo],
    and the transaction has that output alone when [changeAmount] is in
    [0, 9999], and exactly one more when [changeAmount >= 10000]: of
    value [Math.round(changeAmount)], which is [changeAmount] itself, and
    with the script of [changeAddress].  In the exact range
    [changeAmount] is the exact difference. *)
Theorem createTransaction_dust_law
    (amount : Z) (sendTo : string) (utxosInput : list UtxoInfo)
    (derivationPath changeAddress : string) (feeIncluded : bool)
    (tx : Tx.Transaction Script PathIndex) (txFee : Z) :
  build amount sendTo utxosInput derivationPath changeAddress feeIncluded
  = Returned (tx, txFee) ->
  let selection := selectUtxos amount utxosInput feeIncluded in
  let primaryOutputValue :=
    if feeIncluded then numberToFixed8 (jsSub amount (fee selection))
    else amount in
  let changeAmount :=
    jsSub (jsSub (total selection) primaryOutputValue) (fee selection) in
  txFee = fee selection
  /\ (exactRange amount utxosInput ->
      changeAmount
      = total selection - primaryOutputValue - fee selection)
  /\ exists primary,
       TxOut.value primary = primaryOutputValue
       /\ TxOut.value primary
          = (if feeIncluded then jsSub amount (fee selection) else amount)
       /\ addressToScriptPublicKey sendTo
          = Some (TxOut.scriptPublicKey primary)
       /\ (0 <= changeAmount <= 9999 -> Tx.outputs tx = [primary])
       /\ (10000 <= changeAmount ->
           exists change,
             Tx.outputs tx = [primary; change]
             /\ TxOut.value change = Math_round changeAmount
             /\ TxOut.value change = changeAmount
             /\ addressToScriptPublicKey changeAddress
                = Some (TxOut.scriptPublicKey change)).
Proof.
  cbv zeta. intros Hbuilt.
  assert (Hexact :
            exactRange amount utxosInput ->
            jsSub
              (jsSub (total (selectUtxos amount utxosInput feeIncluded))
                 (if feeIncluded
                  then numberToFixed8
                         (jsSub amount
                            (fee (selectUtxos amount utxosInput
                                    feeIncluded)))
                  else amount))
              (fee (selectUtxos amount utxosInput feeIncluded))
            = total (selectUtxos amount utxosInput feeIncluded)
              - (if feeIncluded
                 then numberToFixed8
                        (jsSub amount
                           (fee (selectUtxos amount utxosInput
                                   feeIncluded)))
                 else amount)
              - fee (selectUtxos amount utxosInput feeIncluded)).
  { intros Hrange.
    destruct (exactRange_selection amount utxosInput feeIncluded Hrange)
      as (Htot & _ & Hfee & Hsub & _).
    cbv zeta in *. destruct Hrange as (Hamount & _ & Hrange).
    rewrite numberToFixed8_integer, Hsub. unfold jsSub.
    destruct feeIncluded;
      match goal with
      | |- context [roundToDouble (roundToDouble ?x - _)] =>
          rewrite (roundToDouble_exact x) by lia
      end;
      rewrite roundToDouble_exact by lia; lia. }
  revert Hbuilt. unfold createTransaction.
  destruct (hasEnough (selectUtxos amount utxosInput feeIncluded));
    cbn [negb]; [|discriminate].
  unfold scriptOf.
  destruct (addressToScriptPublicKey sendTo) as [sendToScript|];
    cbn [bind]; [|discriminate].
  match goal with
  | |- context [if (?x >=? 10000) then _ else _] =>
      destruct (x >=? 10000) eqn:Hchange
  end.
  - destruct (addressToScriptPublicKey changeAddress) as [changeScript|];
      cbn [bind]; [|discriminate].
    intros [= <- <-]. split; [reflexivity|]. split; [exact Hexact|].
    eexists (TxOut.mk _ sendToScript).
    cbn [TxOut.value TxOut.scriptPublicKey Tx.outputs app].
    split; [reflexivity|].
    split; [destruct feeIncluded;
            [apply numberToFixed8_integer | reflexivity]|].
    split; [reflexivity|].
    apply Z.geb_le in Hchange. split; [lia|].
    intros _. eexists (TxOut.mk _ changeScript). split; [reflexivity|].
    cbn [TxOut.value TxOut.scriptPublicKey].
    split; [reflexivity|]. split; [apply Math_round_integer|reflexivity].
  - cbn [bind]. intros [= <- <-]. split; [reflexivity|].
    split; [exact Hexact|].
    eexists (TxOut.mk _ sendToScript).
    cbn [TxOut.value TxOut.scriptPublicKey Tx.outputs].
    split; [reflexivity|].
    split; [destruct feeIncluded;
            [apply numberToFixed8_integer | reflexivity]|].
    split; [reflexivity|].
    rewrite Z.geb_leb in Hchange. apply Z.leb_gt in Hchange.
    split; [reflexivity|lia].
Qed.
End BuilderFacts.

(** A run of the builder with the addresses themselves as scripts and the
    path elements left as they are. *)
Lemma createTransaction_dust_law_witness :
  exists tx txFee,
    createTransaction string Some (option string) (fun x => x)
      60000 "to" scenarioA "44'/121337'/0'/0/0" "self" false
    = Returned (tx, txFee)
    /\ txFee = 3165
    /\ List.length (Tx.outputs tx) = 2%nat.
Proof.
  eexists. eexists. split; [vm_compute; reflexivity|].
  destruct (createTransaction_dust_law string Some (option string)
              (fun x => x) 60000 "to" scenarioA "44'/121337'/0'/0/0" "self"
              false _ _ eq_refl)
    as (Hfee & _ & primary & _ & _ & _ & _ & Hchange).
  split; [exact Hfee|].
  destruct Hchange as (change & Houts & _); [vm_compute; discriminate|].
  exact (f_equal (@List.length _) Houts).
Defined.

(** The builder beyond 2^53: the amount less the fee rounds up by one,
    which leaves a change of 9999 and one output, where exact
    subtraction would leave 10000 and two. *)
Example createTransaction_beyond_exact_range :
  exists tx,
    createTransaction string Some (option string) (fun x => x)
      9007199254745090 "to" [coin 9007199254755090] "44'/121337'/0'/0/0"
      "self" true
    = Returned (tx, 2047)
    /\ Tx.outputs tx
       = [{| TxOut.value := 9007199254743044;
             TxOut.scriptPublicKey := "to"%string |}]
    /\ jsSub (jsSub 9007199254755090 9007199254743044) 2047 = 9999.
Proof.
  eexists. split; [vm_compute; reflexivity|].
  split; vm_compute; reflexivity.
Qed.

(** ** The device reply *)

Lemma at_index_after (pre : Buffer) (x : Byte.byte) (post : Buffer) :
  at_index (pre ++ x :: post) (Some (List.length pre)) = Some x.
Proof.
  unfold at_index. rewrite nth_error_app2 by lia.
  rewrite Nat.sub_diag. reflexivity.
Qed.

Lemma slice_between (pre mid post : Buffer) :
  slice (pre ++ mid ++ post) (Some (List.length pre))
    (Some (List.length pre + List.length mid)%nat) = mid.
Proof.
  unfold slice. rewrite !length_app.
  rewrite !Nat.min_l by lia.
  replace (List.length pre + List.length mid - List.length pre)%nat
    with (List.length mid) by lia.
  rewrite skipn_app, skipn_all, Nat.sub_diag. cbn [skipn app].
  rewrite firstn_app, firstn_all, Nat.sub_diag. cbn [firstn].
  apply app_nil_r.
Qed.

Lemma notOne_false (format : option Byte.byte) :
  notOne format = false <-> format = Some Byte.x01.
Proof.
  unfold notOne. destruct format as [b|].
  - rewrite negb_false_iff. split.
    + intros H. f_equal. now apply Byte.byte_dec_bl.
    + intros [= ->]. reflexivity.
  - split; discriminate.
Qed.

(** The parser on a reply laid out as format byte 1, name length, name,
    version length, version, flags length, flags, and whatever follows. *)
Lemma parseAppAndVersion_layout
    (nameLength versionLength flagLength : Byte.byte)
    (nameBytes versionBytes flagBytes rest : Buffer) :
  Byte.to_nat nameLength = List.length nameBytes ->
  Byte.to_nat versionLength = List.length versionBytes ->
  Byte.to_nat flagLength = List.length flagBytes ->
  parseAppAndVersion
    (Byte.x01 :: nameLength :: nameBytes
       ++ versionLength :: versionBytes
       ++ flagLength :: flagBytes ++ rest)
  = Returned {| name := toString_ascii nameBytes;
                version := toString_ascii versionBytes;
                flags := flagBytes |}.
Proof.
  intros Hn Hv Hf.
  set (r := Byte.x01 :: nameLength :: nameBytes
              ++ versionLength :: versionBytes
              ++ flagLength :: flagBytes ++ rest).
  set (pre1 := [Byte.x01; nameLength]).
  set (pre2 := pre1 ++ nameBytes ++ [versionLength]).
  set (pre3 := pre2 ++ versionBytes ++ [flagLength]).
  assert (R1 : r = pre1 ++ nameBytes
                 ++ (versionLength :: versionBytes
                       ++ flagLength :: flagBytes ++ rest))
    by reflexivity.
  assert (R1' : r = (pre1 ++ nameBytes) ++ versionLength
                  :: (versionBytes ++ flagLength :: flagBytes ++ rest)).
  { rewrite R1, <- app_assoc. reflexivity. }
  assert (R2 : r = pre2 ++ versionBytes
                 ++ (flagLength :: flagBytes ++ rest)).
  { rewrite R1. unfold pre2. rewrite <- !app_assoc. reflexivity. }
  assert (R2' : r = (pre2 ++ versionBytes) ++ flagLength
                  :: (flagBytes ++ rest)).
  { rewrite R2, <- app_assoc. reflexivity. }
  assert (R3 : r = pre3 ++ flagBytes ++ rest).
  { rewrite R2. unfold pre3. rewrite <- !app_assoc. reflexivity. }
  assert (L2 : List.length pre2 = S (2 + List.length nameBytes)).
  { unfold pre2, pre1. rewrite !length_app. cbn [List.length]. lia. }
  assert (L3 : List.length pre3
               = S (S (2 + List.length nameBytes)
                    + List.length versionBytes)).
  { unfold pre3. rewrite !length_app, L2. cbn [List.length]. lia. }
  unfold parseAppAndVersion. cbn [increment option_map].
  change (at_index r (Some 0%nat)) with (Some Byte.x01).
  change (at_index r (Some 1%nat)) with (Some nameLength).
  unfold notOne. change (Byte.eqb Byte.x01 Byte.x01) with true.
  cbn [negb advance increment option_map]. rewrite Hn.
  replace (slice r (Some 2%nat) (Some (2 + List.length nameBytes)%nat))
    with nameBytes
    by (rewrite R1 at 1; symmetry; apply (slice_between pre1)).
  replace (at_index r (Some (2 + List.length nameBytes)%nat))
    with (Some versionLength).
  2:{ rewrite R1'. symmetry.
      replace (2 + List.length nameBytes)%nat
        with (List.length (pre1 ++ nameBytes))
        by (rewrite length_app; reflexivity).
      apply at_index_after. }
  cbn [advance increment option_map]. rewrite Hv.
  replace (slice r (Some (S (2 + List.length nameBytes)))
             (Some (S (2 + List.length nameBytes)
                    + List.length versionBytes)%nat))
    with versionBytes
    by (rewrite R2 at 1; rewrite <- L2; symmetry; apply slice_between).
  replace (at_index r (Some (S (2 + List.length nameBytes)
                             + List.length versionBytes)%nat))
    with (Some flagLength).
  2:{ rewrite R2'. symmetry.
      replace (S (2 + List.length nameBytes) + List.length versionBytes)%nat
        with (List.length (pre2 ++ versionBytes))
        by (rewrite length_app, L2; reflexivity).
      apply at_index_after. }
  cbn [advance increment option_map]. rewrite Hf.
  replace (slice r (Some (S (S (2 + List.length nameBytes)
                             + List.length versionBytes)))
             (Some (S (S (2 + List.length nameBytes)
                       + List.length versionBytes)
                    + List.length flagBytes)%nat))
    with flagBytes
    by (rewrite R3 at 1; rewrite <- L3; symmetry; apply slice_between).
  reflexivity.
Qed.

(** C8: on a reply [r] of the device, [getAppAndVersion] throws its format
    error exactly when the first byte of [r] is not 1 (an empty reply has
    none); otherwise it returns, and on a reply laid out as format byte,
    name length, name bytes, version length, version bytes, flags length,
    flags bytes it returns that name, that version and those flags. *)
Theorem getAppAndVersion_format (transport : Transport) (r : Buffer) :
  send transport 0xb0 0x01 0x00 0x00 = Received r ->
  (getAppAndVersion transport
   = Threw (Error "getAppAndVersion: format not supported")
   <-> nth_error r 0 <> Some Byte.x01)
  /\ (nth_error r 0 = Some Byte.x01 ->
      exists app, getAppAndVersion transport = Returned app)
  /\ (forall (nameLength versionLength flagLength : Byte.byte)
             (nameBytes versionBytes flagBytes rest : Buffer),
        r = Byte.x01 :: nameLength :: nameBytes
              ++ versionLength :: versionBytes
              ++ flagLength :: flagBytes ++ rest ->
        Byte.to_nat nameLength = List.length nameBytes ->
        Byte.to_nat versionLength = List.length versionBytes ->
        Byte.to_nat flagLength = List.length flagBytes ->
        getAppAndVersion transport
        = Returned {| name := toString_ascii nameBytes;
                      version := toString_ascii versionBytes;
                      flags := flagBytes |}).
Proof.
  intros Hsend. unfold getAppAndVersion. rewrite Hsend.
  assert (Hformat : at_index r (Some 0%nat) = nth_error r 0) by reflexivity.
  split; [|split].
  - unfold parseAppAndVersion. rewrite Hformat.
    destruct (notOne (nth_error r 0)) eqn:E.
    + split; [|reflexivity].
      intros _ Hone. apply notOne_false in Hone. congruence.
    + apply notOne_false in E. split; [discriminate|congruence].
  - intros Hone. unfold parseAppAndVersion. rewrite Hformat.
    rewrite (proj2 (notOne_false _) Hone). eexists. reflexivity.
  - intros nameLength versionLength flagLength nameBytes versionBytes
      flagBytes rest -> Hn Hv Hf.
    now apply parseAppAndVersion_layout.
Qed.

Lemma getAppAndVersion_format_witness :
  getAppAndVersion {| send := fun _ _ _ _ => Received karlsenReply |}
  = Returned {| name := "Karlsen"; version := "1.0.0";
                flags := [Byte.x00] |}.
Proof.
  apply (proj2 (proj2 (getAppAndVersion_format
                         {| send := fun _ _ _ _ => Received karlsenReply |}
                         karlsenReply eq_refl))
           Byte.x07 Byte.x05 Byte.x01
           [Byte.x4b; Byte.x61; Byte.x72; Byte.x6c; Byte.x73; Byte.x65;
            Byte.x6e]
           [Byte.x31; Byte.x2e; Byte.x30; Byte.x2e; Byte.x30]
           [Byte.x00] []); reflexivity.
Defined.

(** ** The transport session *)

Lemma Forall_without {A : Type} (P : A -> Prop) (l : list A) :
  Forall P l -> forall n, Forall P (firstn n l ++ skipn (S n) l).
Proof.
  induction 1 as [|x l Hx Hl IH]; intros [|n]; cbn [firstn skipn app].
  - constructor.
  - constructor.
  - exact Hl.
  - constructor; [exact Hx | apply IH].
Qed.

Section SessionFacts.
Import Session.
Local Open Scope nat_scope.

Lemma invariant_initial : invariant initial.
Proof. cbn. auto. Qed.

Lemma sameKindReady_stored (st : TransportState) (kind : string) (h : Handle) :
  sameKindReady st kind = Some h -> transport st = Some h.
Proof.
  unfold sameKindReady. destruct (type st), (transport st); try discriminate.
  destruct (String.eqb s kind); [intros [= ->]; reflexivity | discriminate].
Qed.

Lemma invariant_call (kind : string) (w : World) :
  invariant w -> invariant (call kind w).
Proof.
  unfold invariant, call.
  destruct (created w) as [|s [|s' more]] eqn:Hc; [| |contradiction].
  - intros (Hst & Hw & Hf). rewrite Hst, Hw, Hf. cbn.
    refine (conj eq_refl (conj _ (conj (Forall_nil _) (or_introl _)))).
    + discriminate.
    + exists kind, []. repeat split. constructor.
  - intros (Hp & Ht & Hf & Hw).
    destruct (sameKindReady (transportState w) kind) as [h|] eqn:E.
    + cbn [created transportState finished waiting].
      apply sameKindReady_stored in E.
      refine (conj Hp (conj Ht (conj _ Hw))).
      apply Forall_app. split; [exact Hf|].
      constructor; [|constructor]. rewrite (Ht h E). reflexivity.
    + rewrite Hp. cbn [created transportState finished waiting].
      refine (conj Hp (conj Ht (conj Hf _))).
      destruct Hw as [(k0 & rest & Hw & Hrest & Hnone & Htype) | Hw].
      * left. exists k0, (rest ++ [AwaitInitPromise 0]). rewrite Hw.
        refine (conj eq_refl (conj _ (conj Hnone Htype))).
        apply Forall_app. split; [exact Hrest|].
        constructor; [reflexivity|constructor].
      * right. apply Forall_app. split; [exact Hw|].
        constructor; [reflexivity|constructor].
Qed.

Lemma settle_only_pending (p : PromiseId) (outcome : PromiseStatus)
    (w w' : World) :
  settle p outcome w = Some w' ->
  nth_error (created w) p = Some Pending
  /\ outcome <> Pending
  /\ w' = {| transportState := transportState w;
             created := replace p outcome (created w);
             waiting := waiting w;
             finished := finished w |}.
Proof.
  unfold settle.
  destruct (nth_error (created w) p) as [[| |]|]; try discriminate;
    destruct outcome; try discriminate; intros [= <-];
    repeat split; discriminate.
Qed.

Lemma invariant_settle (p : PromiseId) (outcome : PromiseStatus)
    (w w' : World) :
  invariant w -> settle p outcome w = Some w' -> invariant w'.
Proof.
  intros Hinv Hs. apply settle_only_pending in Hs.
  destruct Hs as (Hp & Hout & ->). revert Hinv Hp.
  unfold invariant. cbn [created transportState finished waiting].
  destruct (created w) as [|s [|s' more]]; [| |contradiction].
  - destruct p; discriminate.
  - intros (Hi & Ht & Hf & Hw) Hp.
    destruct p as [|p]; [|destruct p; discriminate].
    cbn in Hp. injection Hp as ->. cbn [replace].
    repeat split; try assumption.
    + intros h Hh. discriminate (Ht h Hh).
    + destruct (finished w) as [|o l]; [constructor|].
      inversion Hf as [|? ? Ho _]. destruct Ho.
Qed.

Lemma agrees_snoc (s : PromiseStatus) (l : list (Completion Handle))
    (o : Completion Handle) :
  Forall (agrees s) l -> agrees s o -> Forall (agrees s) (l ++ [o]).
Proof.
  intros Hl Ho. apply Forall_app. split; [exact Hl|].
  constructor; [exact Ho|constructor].
Qed.

Lemma invariant_resume (n : nat) (w w' : World) :
  invariant w -> resume n w = Some w' -> invariant w'.
Proof.
  intros Hinv Hres. unfold resume in Hres.
  destruct (nth_error (waiting w) n) as [k|] eqn:Hk; [|discriminate].
  destruct (nth_error (created w) (awaited k)) as [s|] eqn:Hs;
    [|discriminate].
  set (rest := firstn n (waiting w) ++ skipn (S n) (waiting w)) in Hres.
  unfold invariant in Hinv.
  destruct (created w) as [|s0 [|s' more]] eqn:Hc; [| |contradiction].
  - destruct Hinv as (_ & Hw & _). rewrite Hw in Hk. destruct n; discriminate.
  - destruct Hinv as (Hi & Ht & Hf & Hw).
    assert (Hshape :
              (k = AwaitInitPromise 0
               /\ ((exists kind' rest',
                      rest = AwaitCreate 0 kind' :: rest'
                      /\ Forall sharesFirst rest'
                      /\ transport (transportState w) = None
                      /\ type (transportState w) = None)
                   \/ Forall sharesFirst rest))
              \/ (exists kind,
                    k = AwaitCreate 0 kind /\ Forall sharesFirst rest)).
    { destruct Hw as [(k0 & tl & Hw & Htl & Hnone & Htype) | Hw].
      - subst rest. rewrite Hw in *. destruct n as [|n].
        + right. exists k0. cbn in Hk. injection Hk as <-.
          split; [reflexivity|exact Htl].
        + left. cbn in Hk. split.
          { apply nth_error_In in Hk. rewrite Forall_forall in Htl.
            exact (Htl _ Hk). }
          left. exists k0, (firstn n tl ++ skipn (S n) tl).
          cbn [firstn skipn app].
          refine (conj eq_refl (conj _ (conj Hnone Htype))).
          now apply Forall_without.
      - left. split.
        { apply nth_error_In in Hk. rewrite Forall_forall in Hw.
          exact (Hw _ Hk). }
        right. subst rest. now apply Forall_without. }
    clearbody rest. unfold continue in Hres.
    destruct Hshape as [(-> & Hrest) | (kind & -> & Hrest)];
      cbn in Hs; injection Hs as <-.
    + destruct s0 as [|h|]; [discriminate| |]; injection Hres as <-;
        unfold invariant;
        cbn [created transportState finished waiting]; rewrite Hc;
        refine (conj Hi (conj Ht (conj _ Hrest)));
        now apply agrees_snoc.
    + destruct s0 as [|h|]; [discriminate| |]; injection Hres as <-;
        unfold invariant;
        cbn [created transportState finished waiting transport initPromise
               type]; rewrite Hc.
      * refine (conj Hi (conj _ (conj _ (or_intror Hrest)))).
        -- intros h' [= ->]. reflexivity.
        -- now apply agrees_snoc.
      * refine (conj Hi (conj Ht (conj _ (or_intror Hrest)))).
        now apply agrees_snoc.
Qed.

Lemma invariant_step (w w' : World) :
  invariant w -> step w w' -> invariant w'.
Proof.
  intros Hinv Hstep. destruct Hstep as [kind w | p outcome w w' H | n w w' H].
  - now apply invariant_call.
  - now apply (invariant_settle p outcome w).
  - now apply (invariant_resume n w).
Qed.

Lemma invariant_steps (w w' : World) :
  invariant w -> steps w w' -> invariant w'.
Proof.
  intros Hinv Hsteps. induction Hsteps as [w | w w' w'' _ IH Hstep].
  - exact Hinv.
  - apply (invariant_step w'); [now apply IH | exact Hstep].
Qed.

Lemma invariant_reachable (w : World) : reachable w -> invariant w.
Proof. apply invariant_steps, invariant_initial. Qed.

Lemma steps_trans (w w' w'' : World) :
  steps w w' -> steps w' w'' -> steps w w''.
Proof.
  intros H1 H2. induction H2 as [w' | w' v v' _ IH Hstep].
  - exact H1.
  - apply (steps_then w v v'); [now apply IH | exact Hstep].
Qed.

Lemma apply_step (e : Event) (w w' : World) :
  apply e w = Some w' -> step w w'.
Proof.
  destruct e as [kind | p outcome | n]; cbn [apply].
  - intros [= <-]. constructor.
  - apply step_settle.
  - apply step_resume.
Qed.

Lemma run_steps (schedule : list Event) :
  forall w w', run schedule w = Some w' -> steps w w'.
Proof.
  induction schedule as [|e later IH]; intros w w'; cbn [run].
  - intros [= <-]. constructor.
  - destruct (apply e w) as [v|] eqn:E; [|discriminate].
    intros Hrun. apply (steps_trans w v w').
    + apply (steps_then w w v); [constructor | now apply (apply_step e)].
    + now apply IH.
Qed.

(** Once the promise is fulfilled, a step creates nothing, leaves
    [initPromise] in place and does not change a stored kind. *)
Lemma step_after_fulfilled (w w' : World) (h : Handle) :
  invariant w -> created w = [Fulfilled h] -> step w w' ->
  created w' = [Fulfilled h]
  /\ initPromise (transportState w') = initPromise (transportState w)
  /\ (forall t, type (transportState w) = Some t ->
                type (transportState w') = Some t).
Proof.
  intros Hinv Hc Hstep. unfold invariant in Hinv. rewrite Hc in Hinv.
  destruct Hinv as (Hi & Ht & Hf & Hw).
  destruct Hstep as [kind w | p outcome w w' H | n w w' H].
  - unfold call.
    destruct (sameKindReady (transportState w) kind);
      [|rewrite Hi]; cbn [created transportState]; auto.
  - apply settle_only_pending in H. destruct H as (Hp & _).
    rewrite Hc in Hp. destruct p as [|[|p]]; discriminate.
  - unfold resume in H.
    destruct (nth_error (waiting w) n) as [k|] eqn:Hk; [|discriminate].
    destruct (nth_error (created w) (awaited k)) as [s|]; [|discriminate].
    unfold continue in H.
    destruct s as [|h'|]; [discriminate| |].
    + destruct k as [p | p kind]; injection H as <-;
        cbn [created transportState initPromise type]; auto.
      refine (conj Hc (conj eq_refl _)). intros t Htype.
      destruct Hw as [(k0 & tl & _ & _ & _ & Hnone) | Hw].
      * congruence.
      * apply nth_error_In in Hk. rewrite Forall_forall in Hw.
        discriminate (Hw _ Hk).
    + injection H as <-. cbn [created transportState]. auto.
Qed.

Lemma steps_after_fulfilled (w w' : World) (h : Handle) :
  invariant w -> created w = [Fulfilled h] -> steps w w' ->
  created w' = [Fulfilled h]
  /\ initPromise (transportState w') = initPromise (transportState w)
  /\ (forall t, type (transportState w) = Some t ->
                type (transportState w') = Some t).
Proof.
  intros Hinv Hc Hsteps. induction Hsteps as [w | w v v' Hsteps IH Hstep].
  - auto.
  - destruct (IH Hinv Hc) as (Hcv & Hiv & Htv).
    destruct (step_after_fulfilled v v' h) as (Hc' & Hi' & Ht');
      [now apply (invariant_steps w) | exact Hcv | exact Hstep |].
    refine (conj Hc' (conj _ _)); [congruence | auto].
Qed.

(** C10: once a call of [initTransport] has returned a handle [h], at
    every later moment exactly one transport has been created, the one
    that gave [h]; [initPromise] still holds its promise and a stored kind
    has not changed; every call that has ended returned [h]; a new call,
    whatever its kind, creates nothing and either returns [h] at once or
    waits on that same promise; and every waiting call, when resumed,
    returns [h]. *)
Theorem initTransport_one_handle (w w' : World) (h : Handle) :
  reachable w -> In (Returned h) (finished w) -> steps w w' ->
  created w = [Fulfilled h]
  /\ created w' = [Fulfilled h]
  /\ initPromise (transportState w) = Some 0
  /\ initPromise (transportState w') = Some 0
  /\ (forall t, type (transportState w) = Some t ->
                type (transportState w') = Some t)
  /\ (forall outcome, In outcome (finished w') -> outcome = Returned h)
  /\ (forall kind,
        created (call kind w') = [Fulfilled h]
        /\ (finished (call kind w') = finished w' ++ [Returned h]
            /\ waiting (call kind w') = waiting w'
            \/ finished (call kind w') = finished w'
               /\ waiting (call kind w')
                  = waiting w' ++ [AwaitInitPromise 0]))
  /\ (forall n k,
        nth_error (waiting w') n = Some k ->
        exists w'',
          resume n w' = Some w''
          /\ created w'' = [Fulfilled h]
          /\ finished w'' = finished w' ++ [Returned h]).
Proof.
  intros Hreach Hin Hsteps.
  pose proof (invariant_reachable w Hreach) as Hinv.
  assert (Hc : created w = [Fulfilled h]).
  { unfold invariant in Hinv.
    destruct (created w) as [|s [|s' more]]; [| |contradiction].
    - destruct Hinv as (_ & _ & Hf). rewrite Hf in Hin. destruct Hin.
    - destruct Hinv as (_ & _ & Hf & _). rewrite Forall_forall in Hf.
      specialize (Hf _ Hin). destruct s as [|h'|]; cbn in Hf;
        [contradiction | now injection Hf as -> | discriminate]. }
  destruct (steps_after_fulfilled w w' h Hinv Hc Hsteps) as (Hc' & Hi' & Ht').
  pose proof (invariant_steps w w' Hinv Hsteps) as Hinv'.
  unfold invariant in Hinv, Hinv'. rewrite Hc in Hinv. rewrite Hc' in Hinv'.
  destruct Hinv as (Hi & _).
  destruct Hinv' as (_ & Hth & Hf' & Hw').
  refine (conj Hc (conj Hc' (conj Hi (conj _ (conj Ht' (conj _ (conj _ _))))))).
  - congruence.
  - intros outcome Ho. rewrite Forall_forall in Hf'. exact (Hf' _ Ho).
  - intros kind. unfold call.
    destruct (sameKindReady (transportState w') kind) as [h'|] eqn:E.
    + cbn [created finished waiting]. split; [exact Hc'|]. left.
      apply sameKindReady_stored in E. apply Hth in E.
      injection E as ->. auto.
    + rewrite Hi', Hi. cbn [created finished waiting]. auto.
  - intros n k Hk. unfold resume. rewrite Hk.
    assert (Hzero : awaited k = 0).
    { destruct Hw' as [(k0 & tl & Hw' & Htl & _) | Hw'].
      - rewrite Hw' in Hk. destruct n as [|n]; cbn in Hk.
        + now injection Hk as <-.
        + apply nth_error_In in Hk. rewrite Forall_forall in Htl.
          now rewrite (Htl _ Hk).
      - apply nth_error_In in Hk. rewrite Forall_forall in Hw'.
        now rewrite (Hw' _ Hk). }
    rewrite Hzero, Hc'. cbn [nth_error continue].
    destruct k; eexists; (split; [reflexivity|]);
      cbn [created finished]; auto.
Qed.

End SessionFacts.

(** A schedule: a USB call that creates the transport and is resumed with
    handle 7, then a Bluetooth call. *)
Lemma initTransport_one_handle_witness :
  exists w w',
    Session.run [Session.Call "usb";
                 Session.Settle 0%nat (Session.Fulfilled 7%nat);
                 Session.Resume 0%nat] Session.initial = Some w
    /\ Session.run [Session.Call "bluetooth"; Session.Resume 0%nat] w = Some w'
    /\ Session.created w' = [Session.Fulfilled 7%nat]
    /\ Session.finished w' = [Returned 7%nat; Returned 7%nat].
Proof.
  eexists. eexists.
  split; [reflexivity|]. split; [reflexivity|].
  split; [|reflexivity].
  refine (proj1 (proj2 (initTransport_one_handle _ _ 7%nat _ _ _))).
  - apply (run_steps [Session.Call "usb";
                      Session.Settle 0%nat (Session.Fulfilled 7%nat);
                      Session.Resume 0%nat]).
    reflexivity.
  - cbn. left. reflexivity.
  - apply (run_steps [Session.Call "bluetooth"; Session.Resume 0%nat]).
    reflexivity.
Defined.

(** * Further properties *)

(** ** The selector's loop, pass by pass *)

Lemma firstn_through (pre : list UtxoInfo) (u : UtxoInfo)
    (rest : list UtxoInfo) :
  firstn (S (List.length pre)) (pre ++ u :: rest) = pre ++ [u].
Proof.
  replace (S (List.length pre)) with (List.length pre + 1)%nat by lia.
  rewrite firstn_app_2. reflexivity.
Qed.

Lemma loopBody_consumed (amount : Z) (feeIncluded : bool)
    (pre : list UtxoInfo) (vars : LoopVars) (u : UtxoInfo)
    (rest : list UtxoInfo) :
  consumed pre vars ->
  consumed (pre ++ [u]) (fst (loopBody amount feeIncluded vars u))
  /\ snd (loopBody amount feeIncluded vars u)
     = stopsAfter amount feeIncluded (pre ++ u :: rest) (S (List.length pre)).
Proof.
  intros (Hfee & Htot & Hsel). unfold loopBody, stopsAfter, consumed.
  cbn [fst snd var_fee var_total var_selected].
  rewrite firstn_through, addedUp_snoc, Hfee, Htot, Hsel.
  rewrite !length_app. cbn [List.length].
  replace (Z.of_nat (List.length pre + 1)) with (Z.of_nat (List.length pre) + 1)
    by lia.
  replace (Z.of_nat (S (List.length pre))) with (Z.of_nat (List.length pre) + 1)
    by lia.
  replace (239 + 690 + 1118 * Z.of_nat (List.length pre) + 1118)
    with (239 + 690 + 1118 * (Z.of_nat (List.length pre) + 1)) by lia.
  auto.
Qed.

(** The loop leaves at the first pass whose test holds, or at the end. *)
Lemma forOf_first_stop (amount : Z) (feeIncluded : bool)
    (l : list UtxoInfo) :
  forall pre vars,
    consumed pre vars ->
    exists k,
      (List.length pre <= k <= List.length (pre ++ l))%nat
      /\ consumed (firstn k (pre ++ l)) (forOf amount feeIncluded vars l)
      /\ (forall j, (List.length pre < j < k)%nat ->
                    stopsAfter amount feeIncluded (pre ++ l) j = false)
      /\ ((k < List.length (pre ++ l))%nat ->
          stopsAfter amount feeIncluded (pre ++ l) k = true)
      /\ (l <> [] -> (List.length pre < k)%nat).
Proof.
  induction l as [|u rest IH]; intros pre vars Hpre.
  - exists (List.length pre). rewrite app_nil_r, firstn_all. cbn [forOf].
    refine (conj _ (conj Hpre (conj _ (conj _ _))));
      first [lia | intros H; now contradiction H].
  - cbn [forOf].
    destruct (loopBody_consumed amount feeIncluded pre vars u rest Hpre)
      as (Hnext & Hstop).
    destruct (loopBody amount feeIncluded vars u) as [vars' stop].
    cbn [fst snd] in Hnext, Hstop.
    destruct stop.
    + exists (S (List.length pre)). rewrite firstn_through.
      rewrite length_app. cbn [List.length].
      refine (conj _ (conj Hnext (conj _ (conj _ _))));
        first [lia | intros _; now symmetry].
    + destruct (IH (pre ++ [u]) vars' Hnext)
        as (k & Hk & Hcons & Hbefore & Hat & Hmore).
      rewrite <- app_assoc in Hk, Hcons, Hbefore, Hat. cbn [app] in *.
      rewrite length_app in Hk, Hbefore. cbn [List.length] in Hk, Hbefore.
      exists k. refine (conj _ (conj Hcons (conj _ (conj Hat _)))).
      * rewrite length_app in *. cbn [List.length] in *. lia.
      * intros j Hj.
        destruct (Nat.eq_dec j (S (List.length pre))) as [-> | Hne].
        -- now symmetry.
        -- apply Hbefore. lia.
      * intros _. lia.
Qed.

Lemma consumed_initial : consumed [] initialVars.
Proof. repeat split. Qed.

(** The number of selected outputs, with what the loop did before and at
    that pass. *)
Lemma selectUtxos_first_stop (amount : Z) (utxosInput : list UtxoInfo)
    (feeIncluded : bool) :
  let r := selectUtxos amount utxosInput feeIncluded in
  let k := List.length (utxos r) in
  (k <= List.length utxosInput)%nat
  /\ utxos r = firstn k utxosInput
  /\ fee r = 239 + 690 + 1118 * Z.of_nat k
  /\ total r = addedUp 0 (firstn k utxosInput)
  /\ (forall j, (0 < j < k)%nat ->
                stopsAfter amount feeIncluded utxosInput j = false)
  /\ ((k < List.length utxosInput)%nat ->
      stopsAfter amount feeIncluded utxosInput k = true)
  /\ (utxosInput <> [] -> (0 < k)%nat).
Proof.
  cbv zeta. unfold selectUtxos. cbn [utxos fee total].
  destruct (forOf_first_stop amount feeIncluded utxosInput [] initialVars
              consumed_initial)
    as (k & Hk & (Hfee & Htot & Hsel) & Hbefore & Hat & Hmore).
  cbn [app List.length] in *.
  assert (Hlen : List.length (firstn k utxosInput) = k)
    by (rewrite length_firstn; lia).
  rewrite Hsel, Hlen. rewrite Hlen in Hfee.
  refine (conj _ (conj eq_refl (conj Hfee (conj Htot
            (conj Hbefore (conj Hat Hmore)))))).
  lia.
Qed.

(** X1: when [selectUtxos] reports [hasEnough = false] it has selected
    every candidate, and its fee is that of spending them all.  In the
    exact range its total is then the sum of all amounts and falls short
    of the amount, plus the fee unless the fee is included in the amount;
    and when it reports [true] there, the total covers the amount, plus
    the fee unless the fee is included. *)
Theorem selectUtxos_verdict (amount : Z) (utxosInput : list UtxoInfo)
    (feeIncluded : bool) :
  let r := selectUtxos amount utxosInput feeIncluded in
  (hasEnough r = false ->
   utxos r = utxosInput
   /\ fee r = 239 + 690 + 1118 * Z.of_nat (List.length utxosInput))
  /\ (exactRange amount utxosInput ->
      (hasEnough r = false ->
       total r = sumAmounts utxosInput
       /\ total r < (if feeIncluded then amount else amount + fee r))
      /\ (hasEnough r = true ->
          (if feeIncluded then amount else amount + fee r) <= total r)).
Proof.
  cbv zeta.
  assert (Hall : hasEnough (selectUtxos amount utxosInput feeIncluded)
                 = false ->
                 utxos (selectUtxos amount utxosInput feeIncluded)
                 = utxosInput
                 /\ fee (selectUtxos amount utxosInput feeIncluded)
                    = 239 + 690
                      + 1118 * Z.of_nat (List.length utxosInput)).
  { unfold selectUtxos. cbn [hasEnough utxos fee].
    destruct (forOf_leftAfter amount feeIncluded utxosInput initialVars)
      as (k & Hk & Hfee & _ & Hsel & Hwhy).
    cbn [initialVars var_fee var_selected app] in Hfee, Hsel.
    rewrite Z.geb_leb, Z.leb_gt. intros Hshort.
    destruct Hwhy as [-> | Hwhy]; [|lia].
    rewrite firstn_all in Hsel. auto. }
  split; [exact Hall|].
  intros Hrange.
  destruct (exactRange_selection amount utxosInput feeIncluded Hrange)
    as (_ & Htot & _ & Hsub & Hback & Hadd).
  cbv zeta in *.
  assert (Henough :
            hasEnough (selectUtxos amount utxosInput feeIncluded)
            = (total (selectUtxos amount utxosInput feeIncluded)
               >=? (if feeIncluded then amount
                    else amount
                         + fee (selectUtxos amount utxosInput feeIncluded)))).
  { unfold selectUtxos at 1. cbn [hasEnough].
    fold (fee (selectUtxos amount utxosInput feeIncluded)).
    change (var_fee (forOf amount feeIncluded initialVars utxosInput))
      with (fee (selectUtxos amount utxosInput feeIncluded)).
    change (var_total (forOf amount feeIncluded initialVars utxosInput))
      with (total (selectUtxos amount utxosInput feeIncluded)).
    destruct feeIncluded; [rewrite Hsub, Hback | rewrite Hadd];
      reflexivity. }
  split.
  - intros Hshort. destruct (Hall Hshort) as (Hsel & _).
    rewrite Hsel in Htot. split; [exact Htot|].
    rewrite Henough, Z.geb_leb, Z.leb_gt in Hshort. exact Hshort.
  - intros Hok. rewrite Henough in Hok. now apply Z.geb_le in Hok.
Qed.

(** X2: [selectUtxos] selects as far as the first pass at which the test
    before [break] holds and no further: the test fails at every earlier
    pass, it holds at the last pass made unless the candidates ran out
    there, and at least one candidate is selected when there is one. *)
Theorem selectUtxos_stops_at_first_match (amount : Z)
    (utxosInput : list UtxoInfo) (feeIncluded : bool) :
  let k := List.length (utxos (selectUtxos amount utxosInput feeIncluded)) in
  (forall j, (0 < j < k)%nat ->
             stopsAfter amount feeIncluded utxosInput j = false)
  /\ ((k < List.length utxosInput)%nat ->
      stopsAfter amount feeIncluded utxosInput k = true)
  /\ (utxosInput <> [] -> (0 < k)%nat).
Proof.
  destruct (selectUtxos_first_stop amount utxosInput feeIncluded)
    as (_ & _ & _ & _ & Hbefore & Hat & Hmore).
  cbv zeta. auto.
Qed.

(** X3: what happens at the first candidate [u], with the total and the
    spend as the loop holds them after one pass (the amount of [u]; the
    amount asked for, less the fee of one input and plus it again when
    the fee is included, plus it otherwise).  If total and spend are
    equal, [u] is selected alone; if not and there are more candidates, at
    least two are selected, even when [u] alone would cover the spend;
    when [u] is the only candidate and more than covers the spend, it is
    selected alone and accepted. *)
Theorem selectUtxos_first_candidate (amount : Z) (u : UtxoInfo)
    (rest : list UtxoInfo) (feeIncluded : bool) :
  let total1 := jsAdd 0 (Utxo.amount u) in
  let spend1 :=
    jsAdd (if feeIncluded then jsSub amount (239 + 690 + 1118) else amount)
      (239 + 690 + 1118) in
  let r := selectUtxos amount (u :: rest) feeIncluded in
  (total1 = spend1 -> utxos r = [u] /\ hasEnough r = true)
  /\ (total1 <> spend1 -> rest <> [] ->
      (2 <= List.length (utxos r))%nat)
  /\ (spend1 < total1 -> rest = [] ->
      utxos r = [u] /\ hasEnough r = true).
Proof.
  cbv zeta.
  destruct (selectUtxos_first_stop amount (u :: rest) feeIncluded)
    as (Hk & Hsel & Hfee & Htot & Hbefore & Hat & Hmore).
  cbv zeta in *.
  set (r := selectUtxos amount (u :: rest) feeIncluded) in *.
  set (k := List.length (utxos r)) in *.
  set (total1 := jsAdd 0 (Utxo.amount u)).
  set (spend1 :=
         jsAdd (if feeIncluded then jsSub amount (239 + 690 + 1118)
                else amount) (239 + 690 + 1118)).
  assert (Hpos : (0 < k)%nat) by (apply Hmore; discriminate).
  assert (Hone : stopsAfter amount feeIncluded (u :: rest) 1
                 = (total1 =? spend1)).
  { unfold stopsAfter, addedUp. cbn [firstn fold_left].
    change (Z.of_nat 1) with 1. change (1 <? 1) with false.
    rewrite andb_false_r, orb_false_r. reflexivity. }
  assert (Henough : hasEnough r
                    = (total r
                       >=? jsAdd (if feeIncluded then jsSub amount (fee r)
                                  else amount) (fee r))) by reflexivity.
  assert (Hsingle : k = 1%nat ->
                    utxos r = [u]
                    /\ total r = total1
                    /\ fee r = 239 + 690 + 1118).
  { intros Hk1. rewrite Hk1 in Hsel, Hfee, Htot.
    cbn [firstn] in Hsel, Htot.
    refine (conj Hsel (conj Htot _)). rewrite Hfee. reflexivity. }
  cbn [List.length] in Hk, Hat.
  split; [|split].
  - intros Heq.
    assert (Hk1 : k = 1%nat).
    { destruct (Nat.eq_dec k 1) as [|Hne]; [assumption|].
      assert (Hfalse : stopsAfter amount feeIncluded (u :: rest) 1 = false)
        by (apply Hbefore; lia).
      rewrite Hone in Hfalse. apply Z.eqb_neq in Hfalse. contradiction. }
    destruct (Hsingle Hk1) as (Hu & Ht & Hf). split; [exact Hu|].
    rewrite Henough, Ht, Hf. apply Z.geb_le. fold spend1. lia.
  - intros Hne Hrest.
    destruct (Nat.eq_dec k 1) as [Hk1|Hk1]; [|lia].
    assert (Htrue : stopsAfter amount feeIncluded (u :: rest) 1 = true).
    { rewrite <- Hk1. apply Hat. rewrite Hk1.
      destruct rest; [contradiction|cbn [List.length]; lia]. }
    rewrite Hone in Htrue. apply Z.eqb_eq in Htrue. contradiction.
  - intros Hover ->. cbn [List.length] in Hk.
    assert (Hk1 : k = 1%nat) by lia.
    destruct (Hsingle Hk1) as (Hu & Ht & Hf). split; [exact Hu|].
    rewrite Henough, Ht, Hf. apply Z.geb_le. fold spend1. lia.
Qed.

Lemma sortedDescending_head (u : UtxoInfo) (l : list UtxoInfo) :
  sortedDescending (u :: l) = true ->
  sortedDescending l = true
  /\ forall v, In v l -> Utxo.amount v <= Utxo.amount u.
Proof.
  revert u. induction l as [|w l IH]; intros u.
  - intros _. split; [reflexivity|]. intros v [].
  - cbn [sortedDescending]. intros H. apply andb_true_iff in H.
    destruct H as (Hle & Hrest). apply Z.leb_le in Hle.
    split; [exact Hrest|].
    intros v [<- | Hin]; [exact Hle|].
    destruct (IH w Hrest) as (_ & Hall). specialize (Hall v Hin). lia.
Qed.

Lemma sortedDescending_across (l1 l2 : list UtxoInfo) :
  sortedDescending (l1 ++ l2) = true ->
  forall u v, In u l1 -> In v l2 -> Utxo.amount v <= Utxo.amount u.
Proof.
  induction l1 as [|w l1 IH]; intros Hsorted u v Hu Hv.
  - destruct Hu.
  - cbn [app] in Hsorted. apply sortedDescending_head in Hsorted.
    destruct Hsorted as (Hrest & Hall).
    destruct Hu as [<- | Hu].
    + apply Hall. apply in_or_app. now right.
    + now apply (IH Hrest).
Qed.

(** X4: on candidates sorted by descending amount, [selectUtxos] selects
    the largest: no candidate left out has a larger amount than a
    selected one. *)
Theorem selectUtxos_takes_largest (amount : Z) (utxosInput : list UtxoInfo)
    (feeIncluded : bool) :
  sortedDescending utxosInput = true ->
  let selected := utxos (selectUtxos amount utxosInput feeIncluded) in
  forall u v,
    In u selected ->
    In v (skipn (List.length selected) utxosInput) ->
    Utxo.amount v <= Utxo.amount u.
Proof.
  intros Hsorted. cbv zeta.
  destruct (selectUtxos_first_stop amount utxosInput feeIncluded)
    as (_ & Hsel & _).
  cbv zeta in Hsel. intros u v Hu Hv. rewrite Hsel in Hu.
  apply (sortedDescending_across
           (firstn (List.length
                      (utxos (selectUtxos amount utxosInput feeIncluded)))
              utxosInput)
           (skipn (List.length
                     (utxos (selectUtxos amount utxosInput feeIncluded)))
              utxosInput)); try assumption.
  rewrite firstn_skipn. exact Hsorted.
Qed.

Lemma selectUtxos_takes_largest_witness :
  Utxo.amount (coin 30000) <= Utxo.amount (coin 40000).
Proof.
  apply (selectUtxos_takes_largest 60000
           [coin 50000; coin 40000; coin 30000] false eq_refl
           (coin 40000) (coin 30000)).
  - right. left. reflexivity.
  - left. reflexivity.
Defined.

(** ** The builder, outcome by outcome *)

Lemma sumAmounts_values (l : list UtxoInfo) :
  sumAmounts l = sumValues (map Utxo.amount l).
Proof.
  induction l as [|u l IH].
  - reflexivity.
  - rewrite sumAmounts_cons, IH. reflexivity.
Qed.

Lemma split_without (sep : ascii) (piece : string) :
  occurs sep piece = false -> split sep piece = [piece].
Proof.
  induction piece as [|c piece IH]; cbn [occurs split].
  - reflexivity.
  - intros H. apply orb_false_iff in H. destruct H as (Hc & Hrest).
    rewrite Hc, (IH Hrest). reflexivity.
Qed.

Lemma split_before (sep : ascii) (piece later : string) :
  occurs sep piece = false ->
  split sep (piece ++ String sep later) = piece :: split sep later.
Proof.
  induction piece as [|c piece IH]; cbn [occurs split String.append].
  - intros _. rewrite Ascii.eqb_refl. reflexivity.
  - intros H. apply orb_false_iff in H. destruct H as (Hc & Hrest).
    rewrite Hc, (IH Hrest). reflexivity.
Qed.

(** [split] undoes [join] on pieces that do not contain the separator. *)
Lemma split_join (sep : ascii) (pieces : list string) :
  pieces <> [] ->
  Forall (fun piece => occurs sep piece = false) pieces ->
  split sep (join sep pieces) = pieces.
Proof.
  induction pieces as [|piece more IH]; [intros H; now contradiction H|].
  intros _ Hall. inversion Hall as [|? ? Hpiece Hmore]; subst.
  destruct more as [|next more].
  - cbn [join]. now apply split_without.
  - change (join sep (piece :: next :: more))
      with (piece ++ String sep (join sep (next :: more)))%string.
    rewrite split_before by exact Hpiece.
    rewrite IH; [reflexivity | discriminate | exact Hmore].
Qed.

Section BuilderOutcomes.
Variable Script : Type.
Variable addressToScriptPublicKey : string -> option Script.
Variable PathIndex : Type.
Variable Number : option string -> PathIndex.

Local Abbreviation build :=
  (createTransaction Script addressToScriptPublicKey PathIndex Number).

(** The inputs [createTransaction] builds from a selection. *)
Local Abbreviation inputsOf derivationPath selected :=
  (map (fun utxo =>
          {| TxIn.value := Utxo.amount utxo;
             TxIn.prevTxId := Utxo.prevTxId utxo;
             TxIn.outpointIndex := Utxo.outpointIndex utxo;
             TxIn.addressType :=
               Number (nth_error (split "/" derivationPath) 3);
             TxIn.addressIndex :=
               Number (nth_error (split "/" derivationPath) 4) |})
       selected).

(** Every way [createTransaction] can end, with what led there. *)
Lemma build_cases
    (amount : Z) (sendTo : string) (utxosInput : list UtxoInfo)
    (derivationPath changeAddress : string) (feeIncluded : bool) :
  let selection := selectUtxos amount utxosInput feeIncluded in
  let targetAmount :=
    if feeIncluded then numberToFixed8 (jsSub amount (fee selection))
    else amount in
  let changeAmount :=
    jsSub (jsSub (total selection) targetAmount) (fee selection) in
  let outcome :=
    build amount sendTo utxosInput derivationPath changeAddress
      feeIncluded in
  (hasEnough selection = false
   /\ outcome = Threw (Error "Amount too high."))
  \/ (hasEnough selection = true
      /\ addressToScriptPublicKey sendTo = None
      /\ outcome = Threw Foreign)
  \/ (hasEnough selection = true
      /\ 10000 <= changeAmount
      /\ addressToScriptPublicKey sendTo <> None
      /\ addressToScriptPublicKey changeAddress = None
      /\ outcome = Threw Foreign)
  \/ (hasEnough selection = true
      /\ exists sendToScript,
           addressToScriptPublicKey sendTo = Some sendToScript
           /\ ((changeAmount < 10000
                /\ outcome
                   = Returned
                       ({| Tx.version := 0;
                           Tx.inputs :=
                             inputsOf derivationPath (utxos selection);
                           Tx.outputs :=
                             [{| TxOut.value := targetAmount;
                                 TxOut.scriptPublicKey := sendToScript |}];
                           Tx.changeAddressType :=
                             Number (nth_error (split "/" derivationPath) 3);
                           Tx.changeAddressIndex :=
                             Number (nth_error (split "/" derivationPath) 4)
                         |}, fee selection))
               \/ (10000 <= changeAmount
                   /\ exists changeScript,
                        addressToScriptPublicKey changeAddress
                        = Some changeScript
                        /\ outcome
                           = Returned
                               ({| Tx.version := 0;
                                   Tx.inputs :=
                                     inputsOf derivationPath
                                       (utxos selection);
                                   Tx.outputs :=
                                     [{| TxOut.value := targetAmount;
                                         TxOut.scriptPublicKey :=
                                           sendToScript |};
                                      {| TxOut.value :=
                                           Math_round changeAmount;
                                         TxOut.scriptPublicKey :=
                                           changeScript |}];
                                   Tx.changeAddressType :=
                                     Number
                                       (nth_error
                                          (split "/" derivationPath) 3);
                                   Tx.changeAddressIndex :=
                                     Number
                                       (nth_error
                                          (split "/" derivationPath) 4)
                                 |}, fee selection)))).
Proof.
  cbv zeta. unfold createTransaction.
  destruct (hasEnough (selectUtxos amount utxosInput feeIncluded));
    cbn [negb]; [|left; auto].
  right. unfold scriptOf.
  destruct (addressToScriptPublicKey sendTo) as [sendToScript|];
    cbn [bind]; [|left; auto].
  right.
  match goal with
  | |- context [if (?x >=? 10000) then _ else _] =>
      destruct (x >=? 10000) eqn:Hchange
  end.
  - apply Z.geb_le in Hchange.
    destruct (addressToScriptPublicKey changeAddress) as [changeScript|];
      cbn [bind].
    + right. split; [reflexivity|]. exists sendToScript.
      split; [reflexivity|]. right. split; [exact Hchange|].
      exists changeScript. split; reflexivity.
    + left. repeat split; try assumption. discriminate.
  - rewrite Z.geb_leb in Hchange. apply Z.leb_gt in Hchange.
    cbn [bind]. right. split; [reflexivity|]. exists sendToScript.
    split; [reflexivity|]. left. split; [exact Hchange|reflexivity].
Qed.

(** What a returned transaction looks like. *)
Lemma build_returned
    (amount : Z) (sendTo : string) (utxosInput : list UtxoInfo)
    (derivationPath changeAddress : string) (feeIncluded : bool)
    (tx : Tx.Transaction Script PathIndex) (txFee : Z) :
  build amount sendTo utxosInput derivationPath changeAddress feeIncluded
  = Returned (tx, txFee) ->
  let selection := selectUtxos amount utxosInput feeIncluded in
  let targetAmount :=
    if feeIncluded then jsSub amount (fee selection) else amount in
  let changeAmount :=
    jsSub (jsSub (total selection) targetAmount) (fee selection) in
  hasEnough selection = true
  /\ txFee = fee selection
  /\ Tx.version tx = 0
  /\ Tx.inputs tx = inputsOf derivationPath (utxos selection)
  /\ Tx.changeAddressType tx
     = Number (nth_error (split "/" derivationPath) 3)
  /\ Tx.changeAddressIndex tx
     = Number (nth_error (split "/" derivationPath) 4)
  /\ exists sendToScript,
       addressToScriptPublicKey sendTo = Some sendToScript
       /\ ((changeAmount < 10000
            /\ Tx.outputs tx
               = [{| TxOut.value := targetAmount;
                     TxOut.scriptPublicKey := sendToScript |}])
           \/ (10000 <= changeAmount
               /\ exists changeScript,
                    addressToScriptPublicKey changeAddress
                    = Some changeScript
                    /\ Tx.outputs tx
                       = [{| TxOut.value := targetAmount;
                             TxOut.scriptPublicKey := sendToScript |};
                          {| TxOut.value := changeAmount;
                             TxOut.scriptPublicKey := changeScript |}])).
Proof.
  intros Hbuilt. cbv zeta.
  destruct (build_cases amount sendTo utxosInput derivationPath
              changeAddress feeIncluded)
    as [(_ & H) | [(_ & _ & H) | [(_ & _ & _ & _ & H)
        | (Henough & sendToScript & Hto & H)]]];
    cbv zeta in H; try (rewrite Hbuilt in H; discriminate).
  rewrite numberToFixed8_integer in H.
  destruct H as [(Hdust & H) | (Hchange & changeScript & Hself & H)];
    rewrite Hbuilt in H; injection H as Htx Hfee;
    (split; [exact Henough|]); (split; [exact Hfee|]);
    rewrite Htx; cbn [Tx.version Tx.inputs Tx.outputs Tx.changeAddressType
                        Tx.changeAddressIndex];
    refine (conj eq_refl (conj eq_refl (conj eq_refl (conj eq_refl _))));
    exists sendToScript; (split; [exact Hto|]).
  - left. split; [exact Hdust|reflexivity].
  - right. split; [exact Hchange|]. exists changeScript.
    split; [exact Hself|]. rewrite Math_round_integer. reflexivity.
Qed.

Lemma selection_input_values (amount : Z) (utxosInput : list UtxoInfo)
    (feeIncluded : bool) (derivationPath : string) :
  sumValues
    (map TxIn.value
       (inputsOf derivationPath
          (utxos (selectUtxos amount utxosInput feeIncluded))))
  = sumAmounts (utxos (selectUtxos amount utxosInput feeIncluded)).
Proof.
  rewrite map_map. cbn [TxIn.value]. symmetry. apply sumAmounts_values.
Qed.

Lemma selection_enough_spend (amount : Z) (utxosInput : list UtxoInfo)
    (feeIncluded : bool) :
  let selection := selectUtxos amount utxosInput feeIncluded in
  hasEnough selection = true ->
  jsAdd (if feeIncluded then jsSub amount (fee selection) else amount)
    (fee selection)
  <= total selection.
Proof.
  cbv zeta. unfold selectUtxos. cbn [hasEnough fee total].
  intros H. now apply Z.geb_le in H.
Qed.

(** X5: in the exact range, the transaction a successful
    [createTransaction] returns spends what it takes in: the values of
    its inputs exceed the values of its outputs by at least the returned
    fee and by at most 9999 more (the dust left to the fee), and by
    exactly the fee when there is a change output; its first output
    carries the amount, less the fee when the fee is included in the
    amount. *)
Theorem createTransaction_value_balance
    (amount : Z) (sendTo : string) (utxosInput : list UtxoInfo)
    (derivationPath changeAddress : string) (feeIncluded : bool)
    (tx : Tx.Transaction Script PathIndex) (txFee : Z) :
  exactRange amount utxosInput ->
  build amount sendTo utxosInput derivationPath changeAddress feeIncluded
  = Returned (tx, txFee) ->
  let paidIn := sumValues (map TxIn.value (Tx.inputs tx)) in
  let paidOut := sumValues (map TxOut.value (Tx.outputs tx)) in
  txFee <= paidIn - paidOut <= txFee + 9999
  /\ (List.length (Tx.outputs tx) = 2%nat -> paidIn = paidOut + txFee)
  /\ (exists primary,
        hd_error (Tx.outputs tx) = Some primary
        /\ TxOut.value primary
           = if feeIncluded then amount - txFee else amount).
Proof.
  intros Hrange Hbuilt. cbv zeta.
  pose proof (selection_enough_spend amount utxosInput feeIncluded) as Hspend.
  pose proof (selection_input_values amount utxosInput feeIncluded
                derivationPath) as Hin.
  destruct (exactRange_selection amount utxosInput feeIncluded Hrange)
    as (Hbound & Htot & Hfee & Hsub & Hback & Hadd).
  destruct (build_returned amount sendTo utxosInput derivationPath
              changeAddress feeIncluded tx txFee Hbuilt)
    as (Henough & -> & _ & Hinputs & _ & _ & sendToScript & _ & Houts).
  cbv zeta in *. specialize (Hspend Henough).
  destruct Hrange as (Hamount & _ & Hrange).
  rewrite Hinputs, Hin, <- Htot. rewrite Hsub in *.
  assert (Hchange :
            jsSub
              (jsSub (total (selectUtxos amount utxosInput feeIncluded))
                 (if feeIncluded
                  then amount
                       - fee (selectUtxos amount utxosInput feeIncluded)
                  else amount))
              (fee (selectUtxos amount utxosInput feeIncluded))
            = total (selectUtxos amount utxosInput feeIncluded)
              - (if feeIncluded
                 then amount
                      - fee (selectUtxos amount utxosInput feeIncluded)
                 else amount)
              - fee (selectUtxos amount utxosInput feeIncluded)).
  { unfold jsSub.
    destruct feeIncluded;
      match goal with
      | |- context [roundToDouble (roundToDouble ?x - _)] =>
          rewrite (roundToDouble_exact x) by lia
      end;
      rewrite roundToDouble_exact by lia; lia. }
  rewrite Hchange in Houts.
  assert (Hcover :
            (if feeIncluded then amount
             else amount + fee (selectUtxos amount utxosInput feeIncluded))
            <= total (selectUtxos amount utxosInput feeIncluded)).
  { destruct feeIncluded; [rewrite Hback in Hspend | rewrite Hadd in Hspend];
      exact Hspend. }
  destruct Houts as [(Hdust & ->) | (Hmore & changeScript & _ & ->)];
    cbn [map TxOut.value sumValues fold_right List.length hd_error].
  - refine (conj _ (conj _ _)).
    + destruct feeIncluded; lia.
    + discriminate.
    + eexists. split; reflexivity.
  - refine (conj _ (conj _ _)).
    + destruct feeIncluded; lia.
    + intros _. destruct feeIncluded; lia.
    + eexists. split; reflexivity.
Qed.

(** X6: a successful [createTransaction] returns a version 0 transaction
    with one input per selected output, in order and with its amount,
    transaction id and index; on a derivation path of slash-separated
    pieces every input and the change are tagged with [Number] of the
    fourth and fifth piece ([Number(undefined)] where the path is
    shorter). *)
Theorem createTransaction_inputs_and_tags
    (amount : Z) (sendTo : string) (utxosInput : list UtxoInfo)
    (pieces : list string) (changeAddress : string) (feeIncluded : bool)
    (tx : Tx.Transaction Script PathIndex) (txFee : Z) :
  pieces <> [] ->
  Forall (fun piece => occurs "/" piece = false) pieces ->
  build amount sendTo utxosInput (join "/" pieces) changeAddress
    feeIncluded
  = Returned (tx, txFee) ->
  let selected := utxos (selectUtxos amount utxosInput feeIncluded) in
  Tx.version tx = 0
  /\ map TxIn.value (Tx.inputs tx) = map Utxo.amount selected
  /\ map TxIn.prevTxId (Tx.inputs tx) = map Utxo.prevTxId selected
  /\ map TxIn.outpointIndex (Tx.inputs tx) = map Utxo.outpointIndex selected
  /\ Forall (fun input =>
               TxIn.addressType input = Number (nth_error pieces 3)
               /\ TxIn.addressIndex input = Number (nth_error pieces 4))
            (Tx.inputs tx)
  /\ Tx.changeAddressType tx = Number (nth_error pieces 3)
  /\ Tx.changeAddressIndex tx = Number (nth_error pieces 4).
Proof.
  intros Hne Hpieces Hbuilt. cbv zeta.
  destruct (build_returned amount sendTo utxosInput (join "/" pieces)
              changeAddress feeIncluded tx txFee Hbuilt)
    as (_ & _ & Hversion & Hinputs & Htype & Hindex & _).
  rewrite (split_join "/" pieces Hne Hpieces) in Hinputs, Htype, Hindex.
  rewrite Hinputs, !map_map. cbn [TxIn.value TxIn.prevTxId TxIn.outpointIndex].
  refine (conj Hversion (conj eq_refl (conj eq_refl (conj eq_refl
            (conj _ (conj Htype Hindex)))))).
  apply Forall_forall. intros input Hin. apply in_map_iff in Hin.
  destruct Hin as (utxo & <- & _). cbn [TxIn.addressType TxIn.addressIndex].
  auto.
Qed.

(** X7: how [createTransaction] fails on an address, with the change as
    the code computes it (the selected total less the primary value less
    the fee).  It throws what
    [addressToScriptPublicKey] throws exactly when the funds suffice and
    either the destination address is refused, or the change is at least
    10000 and the change address is refused; so a change address that
    would be refused does no harm while the change is dust.  It returns a
    transaction exactly when the funds suffice, the destination address
    is accepted, and so is the change address in case the change is at
    least 10000. *)
Theorem createTransaction_address_failures
    (amount : Z) (sendTo : string) (utxosInput : list UtxoInfo)
    (derivationPath changeAddress : string) (feeIncluded : bool) :
  let selection := selectUtxos amount utxosInput feeIncluded in
  let changeAmount :=
    jsSub
      (jsSub (total selection)
         (if feeIncluded then jsSub amount (fee selection) else amount))
      (fee selection) in
  let outcome :=
    build amount sendTo utxosInput derivationPath changeAddress
      feeIncluded in
  (outcome = Threw Foreign
   <-> hasEnough selection = true
       /\ (addressToScriptPublicKey sendTo = None
           \/ (10000 <= changeAmount
               /\ addressToScriptPublicKey changeAddress = None)))
  /\ ((exists built, outcome = Returned built)
      <-> hasEnough selection = true
          /\ addressToScriptPublicKey sendTo <> None
          /\ (10000 <= changeAmount ->
              addressToScriptPublicKey changeAddress <> None)).
Proof.
  cbv zeta.
  destruct (build_cases amount sendTo utxosInput derivationPath
              changeAddress feeIncluded)
    as [(Hnot & H) | [(Henough & Hto & H)
        | [(Henough & Hchange & Hto & Hself & H)
        | (Henough & sendToScript & Hto & H)]]];
    cbv zeta in *; rewrite ?numberToFixed8_integer in *.
  - rewrite H, Hnot. split; split.
    + discriminate.
    + intros (Habs & _). discriminate.
    + intros (built & Habs). discriminate.
    + intros (Habs & _). discriminate.
  - rewrite H. split; split.
    + intros _. auto.
    + reflexivity.
    + intros (built & Habs). discriminate.
    + intros (_ & Habs & _). contradiction.
  - rewrite H. split; split.
    + intros _. auto.
    + reflexivity.
    + intros (built & Habs). discriminate.
    + intros (_ & _ & Habs). now apply Habs in Hchange.
  - destruct H as [(Hdust & H) | (Hchange & changeScript & Hself & H)];
      rewrite H; split; split.
    + discriminate.
    + intros (_ & [Habs | (Habs & _)]); [congruence | lia].
    + intros _. refine (conj Henough (conj _ _)); [congruence | lia].
    + intros _. eexists. reflexivity.
    + discriminate.
    + intros (_ & [Habs | (_ & Habs)]); congruence.
    + intros _. refine (conj Henough (conj _ _)); congruence.
    + intros _. eexists. reflexivity.
Qed.
End BuilderOutcomes.

Lemma createTransaction_value_balance_witness :
  exists tx txFee,
    createTransaction string Some (option string) (fun x => x)
      60000 "to" scenarioA "44'/121337'/0'/0/0" "self" false
    = Returned (tx, txFee)
    /\ sumValues (map TxIn.value (Tx.inputs tx))
       = sumValues (map TxOut.value (Tx.outputs tx)) + txFee.
Proof.
  eexists. eexists. split; [vm_compute; reflexivity|].
  assert (Hrange : exactRange 60000 scenarioA).
  { unfold exactRange. split; [lia|]. split; [|vm_compute; discriminate].
    repeat constructor; vm_compute; discriminate. }
  refine (proj1 (proj2 (createTransaction_value_balance string Some
                          (option string) (fun x => x) 60000 "to" scenarioA
                          "44'/121337'/0'/0/0" "self" false _ _ Hrange
                          eq_refl))
            eq_refl).
Defined.

Lemma createTransaction_inputs_and_tags_witness :
  exists tx txFee,
    createTransaction string Some (option string) (fun x => x)
      60000 "to" scenarioA
      (join "/" ["44'"; "121337'"; "0'"; "0"; "7"]%string) "self" false
    = Returned (tx, txFee)
    /\ Tx.changeAddressType tx = Some "0"%string
    /\ Tx.changeAddressIndex tx = Some "7"%string.
Proof.
  eexists. eexists. split; [vm_compute; reflexivity|].
  destruct (createTransaction_inputs_and_tags string Some (option string)
              (fun x => x) 60000 "to" scenarioA
              ["44'"; "121337'"; "0'"; "0"; "7"]%string "self" false _ _
              ltac:(discriminate)
              ltac:(repeat constructor)
              eq_refl)
    as (_ & _ & _ & _ & _ & Htype & Hindex).
  split; [exact Htype | exact Hindex].
Defined.

(** ** The fetched outputs *)

Lemma insertSorted_permutation {A : Type} (compare : A -> A -> Z) (x : A)
    (l : list A) :
  Permutation (x :: l) (insertSorted compare x l).
Proof.
  induction l as [|y l IH]; cbn [insertSorted].
  - apply Permutation_refl.
  - destruct (compare x y <=? 0).
    + apply Permutation_refl.
    + apply (perm_trans (perm_swap y x l)). now apply perm_skip.
Qed.

Lemma Array_sort_permutation {A : Type} (compare : A -> A -> Z)
    (l : list A) :
  Permutation l (Array_sort compare l).
Proof.
  induction l as [|x l IH]; cbn [Array_sort fold_right].
  - apply perm_nil.
  - apply (perm_trans (perm_skip x IH)). apply insertSorted_permutation.
Qed.

Lemma sortedDescending_cons (u : UtxoInfo) (l : list UtxoInfo) :
  sortedDescending (u :: l) = true
  <-> sortedDescending l = true
      /\ (forall v, hd_error l = Some v -> Utxo.amount v <= Utxo.amount u).
Proof.
  destruct l as [|w l].
  - split; [|reflexivity]. intros _. split; [reflexivity|discriminate].
  - change (sortedDescending (u :: w :: l))
      with ((Utxo.amount w <=? Utxo.amount u) && sortedDescending (w :: l)).
    rewrite andb_true_iff, Z.leb_le. cbn [hd_error]. split.
    + intros (Hle & Hrest). split; [exact Hrest|]. now intros v [= <-].
    + intros (Hrest & Hhd). split; [now apply Hhd | exact Hrest].
Qed.

Lemma insertSorted_head (x : UtxoInfo) (l : list UtxoInfo) :
  hd_error (insertSorted byDecreasingAmount x l) = Some x
  \/ hd_error (insertSorted byDecreasingAmount x l) = hd_error l.
Proof.
  destruct l as [|y l]; cbn [insertSorted].
  - now left.
  - destruct (byDecreasingAmount x y <=? 0); [now left | now right].
Qed.

Lemma insertSorted_sorted (x : UtxoInfo) (l : list UtxoInfo) :
  sortedDescending l = true ->
  sortedDescending (insertSorted byDecreasingAmount x l) = true.
Proof.
  induction l as [|y l IH]; intros Hsorted; cbn [insertSorted].
  - reflexivity.
  - unfold byDecreasingAmount at 1.
    destruct (Utxo.amount y - Utxo.amount x <=? 0) eqn:E.
    + apply Z.leb_le in E. apply sortedDescending_cons.
      split; [exact Hsorted|]. cbn [hd_error]. intros v [= <-]. lia.
    + apply Z.leb_gt in E. apply sortedDescending_cons in Hsorted.
      destruct Hsorted as (Hrest & Hhd).
      apply sortedDescending_cons. split; [now apply IH|].
      intros v Hv.
      destruct (insertSorted_head x l) as [H | H]; rewrite H in Hv.
      * injection Hv as <-. lia.
      * now apply Hhd.
Qed.

Lemma Array_sort_sorted (l : list UtxoInfo) :
  sortedDescending (Array_sort byDecreasingAmount l) = true.
Proof.
  induction l as [|x l IH]; cbn [Array_sort fold_right].
  - reflexivity.
  - now apply insertSorted_sorted.
Qed.

(** Inserting does not reorder the outputs of one amount. *)
Lemma insertSorted_stable (a : Z) (x : UtxoInfo) (l : list UtxoInfo) :
  filter (fun u => Utxo.amount u =? a) (insertSorted byDecreasingAmount x l)
  = filter (fun u => Utxo.amount u =? a) (x :: l).
Proof.
  induction l as [|y l IH]; cbn [insertSorted].
  - reflexivity.
  - unfold byDecreasingAmount at 1.
    destruct (Utxo.amount y - Utxo.amount x <=? 0) eqn:E; [reflexivity|].
    apply Z.leb_gt in E.
    cbn [filter] in *. rewrite IH.
    destruct (Utxo.amount x =? a) eqn:Ex, (Utxo.amount y =? a) eqn:Ey;
      try reflexivity.
    apply Z.eqb_eq in Ex, Ey. lia.
Qed.

Lemma Array_sort_stable (a : Z) (l : list UtxoInfo) :
  filter (fun u => Utxo.amount u =? a) (Array_sort byDecreasingAmount l)
  = filter (fun u => Utxo.amount u =? a) l.
Proof.
  induction l as [|x l IH]; cbn [Array_sort fold_right].
  - reflexivity.
  - fold (Array_sort byDecreasingAmount l).
    rewrite insertSorted_stable. cbn [filter]. rewrite IH. reflexivity.
Qed.

Section FetchedDetails.
Variable Balance : Type.
Variable getBalance : string -> option Balance.
Variable getUtxos : string -> option (list Relay.Utxo).
Variable amountOf : string -> Z.
Variable PathIndex : Type.
Variable Number : option string -> PathIndex.
Variable Script : Type.
Variable addressToScriptPublicKey : string -> option Script.

Local Abbreviation fetch :=
  (fetchAddressDetails Balance getBalance getUtxos amountOf PathIndex Number).

(** An element of the relay's reply as the [map] of
    [fetchAddressDetails] converts it. *)
Local Abbreviation converted utxoData :=
  (map (fun utxo =>
          {| Utxo.prevTxId := Relay.outpoint_transactionId utxo;
             Utxo.outpointIndex := Relay.outpoint_index utxo;
             Utxo.amount := amountOf (Relay.utxoEntry_amount utxo) |})
       utxoData).

Lemma fetch_cases (address derivationPath : string) :
  (fetch address derivationPath = Threw Foreign
   /\ (getBalance address = None \/ getUtxos address = None))
  \/ (exists balance utxoData,
        getBalance address = Some balance
        /\ getUtxos address = Some utxoData
        /\ fetch address derivationPath
           = Returned
               {| Details.address := address;
                  Details.derivationPath := derivationPath;
                  Details.balance := balance;
                  Details.utxos :=
                    Array_sort byDecreasingAmount (converted utxoData);
                  Details.addressType :=
                    Number (nth_error (split "/" derivationPath) 3);
                  Details.addressIndex :=
                    Number (nth_error (split "/" derivationPath) 4) |}).
Proof.
  unfold fetchAddressDetails.
  destruct (getBalance address) as [balance|]; [|left; auto].
  destruct (getUtxos address) as [utxoData|]; [|left; auto].
  right. exists balance, utxoData. auto.
Qed.

(** X8: [fetchAddressDetails] fails exactly when one of the relay's two
    replies is missing.  Otherwise the outputs it returns are those of the
    reply, each once (a permutation of them), in descending order of
    amount as [selectUtxos] expects, with outputs of equal amount in the
    order of the reply; and it returns the address, the path and the
    balance as given. *)
Theorem fetchAddressDetails_sorted_utxos (address derivationPath : string) :
  match fetch address derivationPath with
  | Threw e =>
      e = Foreign
      /\ (getBalance address = None \/ getUtxos address = None)
  | Returned details =>
      exists utxoData,
        getUtxos address = Some utxoData
        /\ getBalance address = Some (Details.balance details)
        /\ Details.address details = address
        /\ Details.derivationPath details = derivationPath
        /\ sortedDescending (Details.utxos details) = true
        /\ Permutation (converted utxoData) (Details.utxos details)
        /\ (forall a,
              filter (fun u => Utxo.amount u =? a) (Details.utxos details)
              = filter (fun u => Utxo.amount u =? a) (converted utxoData))
  end.
Proof.
  destruct (fetch_cases address derivationPath)
    as [(-> & Hmissing) | (balance & utxoData & Hb & Hu & ->)].
  - auto.
  - exists utxoData.
    cbn [Details.balance Details.address Details.derivationPath
           Details.utxos].
    refine (conj Hu (conj Hb (conj eq_refl (conj eq_refl
              (conj _ (conj _ _)))))).
    + apply Array_sort_sorted.
    + apply Array_sort_permutation.
    + intros a. apply Array_sort_stable.
Qed.

Local Abbreviation build :=
  (createTransaction Script addressToScriptPublicKey PathIndex Number).

(** X9: a transaction built from what [fetchAddressDetails] returned,
    with its outputs as candidates and its derivation path, is tagged
    with the address type and index of those details, on every input and
    for the change; and it spends the largest outputs: none of the
    fetched outputs it leaves unspent is larger than the value of one of
    its inputs. *)
Theorem createTransaction_from_details
    (address derivationPath : string)
    (details : Details.AddressDetails Balance PathIndex)
    (amount : Z) (sendTo changeAddress : string) (feeIncluded : bool)
    (tx : Tx.Transaction Script PathIndex) (txFee : Z) :
  fetch address derivationPath = Returned details ->
  build amount sendTo (Details.utxos details)
    (Details.derivationPath details) changeAddress feeIncluded
  = Returned (tx, txFee) ->
  Tx.changeAddressType tx = Details.addressType details
  /\ Tx.changeAddressIndex tx = Details.addressIndex details
  /\ Forall (fun input =>
               TxIn.addressType input = Details.addressType details
               /\ TxIn.addressIndex input = Details.addressIndex details)
            (Tx.inputs tx)
  /\ (forall input unspent,
        In input (Tx.inputs tx) ->
        In unspent
          (skipn (List.length (Tx.inputs tx)) (Details.utxos details)) ->
        Utxo.amount unspent <= TxIn.value input).
Proof.
  intros Hfetch Hbuilt.
  destruct (fetch_cases address derivationPath)
    as [(H & _) | (balance & utxoData & _ & _ & H)];
    rewrite Hfetch in H; [discriminate|].
  injection H as Hdetails.
  assert (Hfields :
            Details.derivationPath details = derivationPath
            /\ Details.addressType details
               = Number (nth_error (split "/" derivationPath) 3)
            /\ Details.addressIndex details
               = Number (nth_error (split "/" derivationPath) 4)
            /\ sortedDescending (Details.utxos details) = true).
  { rewrite Hdetails.
    cbn [Details.derivationPath Details.addressType Details.addressIndex
           Details.utxos].
    refine (conj eq_refl (conj eq_refl (conj eq_refl _))).
    apply Array_sort_sorted. }
  clear Hdetails. destruct Hfields as (Hpath & Htype & Hindex & Hsorted).
  rewrite Hpath in Hbuilt.
  destruct (build_returned Script addressToScriptPublicKey PathIndex Number
              amount sendTo (Details.utxos details) derivationPath
              changeAddress feeIncluded tx txFee Hbuilt)
    as (_ & _ & _ & Hinputs & Hctype & Hcindex & _).
  rewrite Htype, Hindex.
  refine (conj Hctype (conj Hcindex (conj _ _))).
  - rewrite Hinputs. apply Forall_forall. intros input Hin.
    apply in_map_iff in Hin. destruct Hin as (utxo & <- & _).
    cbn [TxIn.addressType TxIn.addressIndex]. auto.
  - intros input unspent Hin Hunspent.
    rewrite Hinputs in Hin, Hunspent. rewrite length_map in Hunspent.
    apply in_map_iff in Hin. destruct Hin as (utxo & <- & Hin).
    cbn [TxIn.value].
    destruct (selectUtxos_first_stop amount (Details.utxos details)
                feeIncluded) as (_ & Hsel & _).
    cbv zeta in Hsel. rewrite Hsel in Hin.
    apply (sortedDescending_across
             (firstn (List.length
                        (utxos (selectUtxos amount (Details.utxos details)
                                  feeIncluded)))
                (Details.utxos details))
             (skipn (List.length
                       (utxos (selectUtxos amount (Details.utxos details)
                                 feeIncluded)))
                (Details.utxos details))); try assumption.
    rewrite firstn_skipn. exact Hsorted.
Qed.
End FetchedDetails.

Lemma createTransaction_from_details_witness :
  let getBalance := fun _ : string => Some 90000 in
  let getUtxos :=
    fun _ : string =>
      Some [Relay.mk "a" 0 "40000"; Relay.mk "b" 1 "50000"] in
  let amountOf :=
    fun s : string => if String.eqb s "50000" then 50000 else 40000 in
  exists details tx txFee,
    fetchAddressDetails Z getBalance getUtxos amountOf (option string)
      (fun x => x) "me" "44'/121337'/0'/0/3"
    = Returned details
    /\ createTransaction string Some (option string) (fun x => x)
         60000 "to" (Details.utxos details)
         (Details.derivationPath details) "me" false
       = Returned (tx, txFee)
    /\ Tx.changeAddressType tx = Details.addressType details
    /\ Tx.changeAddressIndex tx = Details.addressIndex details.
Proof.
  cbv zeta. eexists. eexists. eexists.
  split; [vm_compute; reflexivity|].
  split; [vm_compute; reflexivity|].
  destruct (createTransaction_from_details Z
              (fun _ : string => Some 90000)
              (fun _ : string =>
                 Some [Relay.mk "a" 0 "40000"; Relay.mk "b" 1 "50000"])
              (fun s : string =>
                 if String.eqb s "50000" then 50000 else 40000)
              (option string) (fun x => x) string Some
              "me" "44'/121337'/0'/0/3" _ 60000 "to" "me" false _ _
              eq_refl eq_refl)
    as (Htype & Hindex & _).
  split; [exact Htype | exact Hindex].
Defined.

(** ** More on the device reply *)

Lemma length_toString_ascii (b : Buffer) :
  String.length (toString_ascii b) = List.length b.
Proof.
  unfold toString_ascii. induction b as [|x b IH]; cbn; [reflexivity|].
  now f_equal.
Qed.

(** A field is never longer than the length byte read for it. *)
Lemma slice_advance_bound (r : Buffer) (i : Cursor)
    (len : option Byte.byte) :
  (List.length (slice r i (advance i len)) <= 255)%nat.
Proof.
  unfold slice, advance. rewrite length_firstn.
  destruct i as [n|], len as [b|]; cbn [List.length]; try lia.
  pose proof (Byte.to_nat_bounded b). lia.
Qed.

(** X10: whatever the device replies, each field [getAppAndVersion]
    returns is at most as long as the length byte that precedes it says,
    so at most 255 characters or bytes. *)
Theorem getAppAndVersion_field_lengths (transport : Transport)
    (app : AppAndVersion) :
  getAppAndVersion transport = Returned app ->
  (String.length (name app) <= 255)%nat
  /\ (String.length (version app) <= 255)%nat
  /\ (List.length (flags app) <= 255)%nat.
Proof.
  unfold getAppAndVersion.
  destruct (send transport 176 1 0 0) as [r|]; [|discriminate].
  unfold parseAppAndVersion.
  destruct (notOne (at_index r (Some 0%nat))); [discriminate|].
  repeat match goal with
         | |- context [slice r ?i (advance ?i ?len)] =>
             let H := fresh "Hbound" in
             pose proof (slice_advance_bound r i len) as H;
             let field := fresh "field" in
             set (field := slice r i (advance i len)) in *;
             clearbody field
         end.
  intros [= <-]. cbn [name version flags].
  rewrite !length_toString_ascii. auto.
Qed.

Lemma getAppAndVersion_field_lengths_witness :
  (String.length "Karlsen" <= 255)%nat
  /\ (String.length "1.0.0" <= 255)%nat
  /\ (List.length [Byte.x00] <= 255)%nat.
Proof.
  exact (getAppAndVersion_field_lengths
           {| send := fun _ _ _ _ => Received karlsenReply |}
           {| name := "Karlsen"; version := "1.0.0"; flags := [Byte.x00] |}
           eq_refl).
Defined.

(** X11: a reply cut short does not make [getAppAndVersion] throw.  When
    the reply ends within the name (fewer bytes follow the name length
    than it announces), the name is what is there and the version and the
    flags are empty; a reply of the format byte alone gives three empty
    fields. *)
Theorem getAppAndVersion_truncated (transport : Transport)
    (nameLength : Byte.byte) (rest : Buffer) :
  (List.length rest <= Byte.to_nat nameLength)%nat ->
  (send transport 0xb0 0x01 0x00 0x00
   = Received (Byte.x01 :: nameLength :: rest) ->
   getAppAndVersion transport
   = Returned {| name := toString_ascii rest; version := EmptyString;
                 flags := [] |})
  /\ (send transport 0xb0 0x01 0x00 0x00 = Received [Byte.x01] ->
      getAppAndVersion transport
      = Returned {| name := EmptyString; version := EmptyString;
                    flags := [] |}).
Proof.
  intros Hshort. unfold getAppAndVersion. split; intros ->.
  - set (r := Byte.x01 :: nameLength :: rest).
    assert (Hlen : List.length r = S (S (List.length rest))) by reflexivity.
    unfold parseAppAndVersion. cbn [increment option_map].
    change (at_index r (Some 0%nat)) with (Some Byte.x01).
    change (at_index r (Some 1%nat)) with (Some nameLength).
    unfold notOne. change (Byte.eqb Byte.x01 Byte.x01) with true.
    cbn [negb advance increment option_map].
    assert (Hname : slice r (Some 2%nat)
                      (Some (2 + Byte.to_nat nameLength)%nat) = rest).
    { unfold slice. rewrite Hlen.
      rewrite !Nat.min_r by lia. rewrite Nat.min_l by lia.
      replace (S (S (List.length rest)) - 2)%nat with (List.length rest)
        by lia.
      change (skipn 2 r) with rest. apply firstn_all. }
    rewrite Hname.
    assert (Hpast : at_index r (Some (2 + Byte.to_nat nameLength)%nat)
                    = None).
    { unfold at_index. apply nth_error_None. rewrite Hlen. lia. }
    rewrite Hpast. cbn [advance at_index increment option_map].
    assert (Hempty : forall start, slice r start None = []).
    { intros start. unfold slice. rewrite Nat.min_0_l. reflexivity. }
    rewrite !Hempty. reflexivity.
  - reflexivity.
Qed.

Lemma getAppAndVersion_truncated_witness :
  getAppAndVersion
    {| send := fun _ _ _ _ =>
                 Received [Byte.x01; Byte.x07; Byte.x4b; Byte.x61] |}
  = Returned {| name := "Ka"; version := EmptyString; flags := [] |}.
Proof.
  apply (proj1 (getAppAndVersion_truncated
                  {| send := fun _ _ _ _ =>
                               Received
                                 [Byte.x01; Byte.x07; Byte.x4b; Byte.x61] |}
                  Byte.x07 [Byte.x4b; Byte.x61] ltac:(vm_compute; lia))).
  reflexivity.
Defined.

(** ** getAddress *)

Lemma toUint8_parity (b : Byte.byte) :
  toUint8 (Some (Byte.to_N b mod 2 + 2)%N)
  = if (Byte.to_N b mod 2 =? 0)%N then Byte.x02 else Byte.x03.
Proof.
  assert (H : (Byte.to_N b mod 2 = 0 \/ Byte.to_N b mod 2 = 1)%N).
  { pose proof (N.mod_upper_bound (Byte.to_N b) 2 ltac:(discriminate)) as H.
    set (m := (Byte.to_N b mod 2)%N) in *. clearbody m. lia. }
  destruct H as [-> | ->]; reflexivity.
Qed.

Section GetAddressFacts.
Variable Address : Type.
Variable publicKeyToAddress : Buffer -> bool -> option Address.
Variable getPublicKey : string -> bool -> SendResult.

(** X12: with a transport stored, on a device reply laid out as a length
    byte, the 65-byte public key (a prefix byte, the 32-byte x coordinate
    [x] and the 32-byte y coordinate, ending in [yLast]), a length byte,
    the 32-byte chain code and whatever follows, [getAddress] returns the
    address of [x], the 65 bytes both as [publicKey] and as
    [fullPublicKey], the chain code, and as compressed key the byte 02
    for an even [yLast] or 03 for an odd one, followed by [x]. *)
Theorem getAddress_layout (st : Session.TransportState)
    (path : string) (display : bool) (handle : Session.Handle)
    (keyLength prefix yLast chainLength : Byte.byte)
    (x yInit chain rest : Buffer) (address : Address) :
  Session.transport st = Some handle ->
  getPublicKey path display
  = Received (keyLength :: prefix :: x ++ yInit ++ yLast :: chainLength
                :: chain ++ rest) ->
  List.length x = 32%nat ->
  List.length yInit = 31%nat ->
  List.length chain = 32%nat ->
  publicKeyToAddress x false = Some address ->
  getAddress Address publicKeyToAddress getPublicKey st path display
  = Returned
      {| Key.address := address;
         Key.publicKey := prefix :: x ++ yInit ++ [yLast];
         Key.fullPublicKey := prefix :: x ++ yInit ++ [yLast];
         Key.compressedPublicKey :=
           (if (Byte.to_N yLast mod 2 =? 0)%N then Byte.x02 else Byte.x03)
           :: x;
         Key.chainCode := chain |}.
Proof.
  intros Hst Hreply Hx Hy Hchain Haddress.
  unfold getAddress. rewrite Hst, Hreply.
  set (r := keyLength :: prefix :: x ++ yInit ++ yLast :: chainLength
              :: chain ++ rest).
  assert (Hkey : slice r (Some 1%nat) (Some 66%nat)
                 = prefix :: x ++ yInit ++ [yLast]).
  { replace r with ([keyLength] ++ (prefix :: x ++ yInit ++ [yLast])
                      ++ (chainLength :: chain ++ rest)).
    - replace 66%nat
        with (List.length [keyLength]
              + List.length (prefix :: x ++ yInit ++ [yLast]))%nat.
      + apply (slice_between [keyLength]).
      + cbn [List.length]. rewrite !length_app, Hx, Hy. reflexivity.
    - unfold r. cbn [app]. rewrite <- !app_assoc. reflexivity. }
  assert (Hxs : slice r (Some 2%nat) (Some 34%nat) = x).
  { replace r with ([keyLength; prefix] ++ x
                      ++ (yInit ++ yLast :: chainLength :: chain ++ rest))
      by reflexivity.
    replace 34%nat with (List.length [keyLength; prefix] + List.length x)%nat
      by (rewrite Hx; reflexivity).
    apply (slice_between [keyLength; prefix]). }
  assert (Hlast : at_index r (Some 65%nat) = Some yLast).
  { replace r with ((keyLength :: prefix :: x ++ yInit)
                      ++ yLast :: chainLength :: chain ++ rest).
    - replace 65%nat with (List.length (keyLength :: prefix :: x ++ yInit)).
      + apply at_index_after.
      + cbn [List.length]. rewrite length_app, Hx, Hy. reflexivity.
    - unfold r. cbn [app]. rewrite <- !app_assoc. reflexivity. }
  assert (Hcc : slice r (Some 67%nat) (Some (67 + 32)%nat) = chain).
  { replace r with ((keyLength :: prefix :: x ++ yInit
                       ++ [yLast; chainLength]) ++ chain ++ rest).
    - replace 67%nat
        with (List.length (keyLength :: prefix :: x ++ yInit
                             ++ [yLast; chainLength])).
      + rewrite <- Hchain. apply slice_between.
      + cbn [List.length]. rewrite !length_app, Hx, Hy. reflexivity.
    - unfold r. cbn [app]. rewrite <- !app_assoc. reflexivity. }
  change (Some (1 + 65)%nat) with (Some 66%nat).
  rewrite Hkey, Hxs, Hlast, Hcc, Haddress. cbn [option_map].
  rewrite toUint8_parity. reflexivity.
Qed.
End GetAddressFacts.

Lemma getAddress_layout_witness :
  let x := repeat Byte.x11 32 in
  let yInit := repeat Byte.x22 31 in
  let chain := repeat Byte.x33 32 in
  getAddress Buffer (fun key _ => Some key)
    (fun _ _ =>
       Received (Byte.x41 :: Byte.x04 :: x ++ yInit ++ Byte.x23 :: Byte.x20
                   :: chain ++ []))
    {| Session.transport := Some 7%nat;
       Session.initPromise := Some 0%nat;
       Session.type := Some "usb"%string |}
    "44'/121337'/0'/0/0" false
  = Returned
      {| Key.address := x;
         Key.publicKey := Byte.x04 :: x ++ yInit ++ [Byte.x23];
         Key.fullPublicKey := Byte.x04 :: x ++ yInit ++ [Byte.x23];
         Key.compressedPublicKey := Byte.x03 :: x;
         Key.chainCode := chain |}.
Proof.
  cbv zeta.
  apply (getAddress_layout Buffer (fun key _ => Some key)
           (fun _ _ =>
              Received (Byte.x41 :: Byte.x04 :: repeat Byte.x11 32
                          ++ repeat Byte.x22 31 ++ Byte.x23 :: Byte.x20
                          :: repeat Byte.x33 32 ++ []))
           {| Session.transport := Some 7%nat;
              Session.initPromise := Some 0%nat;
              Session.type := Some "usb"%string |}
           "44'/121337'/0'/0/0" false 7%nat
           Byte.x41 Byte.x04 Byte.x23 Byte.x20
           (repeat Byte.x11 32) (repeat Byte.x22 31) (repeat Byte.x33 32)
           [] (repeat Byte.x11 32)); reflexivity.
Defined.

(** ** The start page *)

Section GetAppDataFacts.
Variable initTransport : string -> Caught + Transport.
Variable sendError : Caught.


(** X13: [getAppData] throws exactly on a device type other than demo,
    usb and bluetooth, before the device is touched; on demo it goes to
    the wallet without touching the device. *)
Theorem getAppData_device_types (deviceType : string) :
  ((exists e, getAppData initTransport sendError deviceType = Threw e)
   <-> deviceType <> "demo"%string
       /\ deviceType <> "usb"%string
       /\ deviceType <> "bluetooth"%string)
  /\ getAppData initTransport sendError "demo"
     = Returned (Push "/wallet?deviceType=demo").
Proof.
  split; [|reflexivity].
  unfold getAppData.
  destruct (String.eqb_spec deviceType "demo") as [Hdemo | Hdemo].
  { split; [intros (e & H); discriminate | intros (H & _); contradiction]. }
  destruct (String.eqb_spec deviceType "usb") as [Husb | Husb];
    [|destruct (String.eqb_spec deviceType "bluetooth") as [Hblue | Hblue]];
    cbn [negb andb].
  3:{ split; [auto | intros _; eexists; reflexivity]. }
  all: split; [|intros (_ & H1 & H2); contradiction].
  all: intros (e & H); exfalso; revert H.
  all: destruct (initTransport deviceType) as [caught | transport];
    [discriminate|].
  all: destruct (getAppAndVersion transport) as [app | [message|]];
    try discriminate.
  all: destruct (String.eqb (name app) "Kaspa"); discriminate.
Qed.

End GetAppDataFacts.


(** ** The transport session over its whole life *)

Section SessionLife.
Import Session.
Local Open Scope nat_scope.

(** A settled promise stays as it is, and no other is created. *)
Lemma step_after_settled (w w' : World) (s : PromiseStatus) :
  invariant w -> created w = [s] -> s <> Pending -> step w w' ->
  created w' = [s].
Proof.
  intros Hinv Hc Hs Hstep. unfold invariant in Hinv. rewrite Hc in Hinv.
  destruct Hinv as (Hi & _).
  destruct Hstep as [kind w | p outcome w w' H | n w w' H].
  - unfold call.
    destruct (sameKindReady (transportState w) kind);
      [|rewrite Hi]; cbn [created]; exact Hc.
  - apply settle_only_pending in H. destruct H as (Hp & _).
    rewrite Hc in Hp. destruct p as [|[|p]]; try discriminate.
    cbn in Hp. injection Hp as Hp. contradiction.
  - unfold resume in H.
    destruct (nth_error (waiting w) n) as [k|]; [|discriminate].
    destruct (nth_error (created w) (awaited k)) as [s0|]; [|discriminate].
    unfold continue in H.
    destruct s0 as [|h|]; [discriminate| |];
      [destruct k|]; injection H as <-; cbn [created]; exact Hc.
Qed.

Lemma steps_after_settled (w w' : World) (s : PromiseStatus) :
  invariant w -> created w = [s] -> s <> Pending -> steps w w' ->
  created w' = [s].
Proof.
  intros Hinv Hc Hs Hsteps. induction Hsteps as [w | w v v' Hsteps IH Hstep].
  - exact Hc.
  - apply (step_after_settled v v' s); auto.
    now apply (invariant_steps w).
Qed.

(** X15: at every moment of any schedule of calls of [initTransport],
    settlements and resumptions, [TransportWebHID.create] has been called
    at most once; no call has ended before its promise settled; all calls
    that returned returned one and the same handle, which is then what a
    stored [transport] is; and calls have never both returned and
    thrown. *)
Theorem initTransport_creates_once (w : World) :
  reachable w ->
  List.length (created w) <= 1
  /\ (finished w <> [] ->
      exists s, created w = [s] /\ s <> Pending)
  /\ (forall h1 h2,
        In (Returned h1) (finished w) -> In (Returned h2) (finished w) ->
        h1 = h2)
  /\ (forall h h',
        transport (transportState w) = Some h ->
        In (Returned h') (finished w) -> h' = h)
  /\ (forall e h,
        In (Threw e) (finished w) -> In (Returned h) (finished w) -> False).
Proof.
  intros Hreach. pose proof (invariant_reachable w Hreach) as Hinv.
  unfold invariant in Hinv.
  destruct (created w) as [|s [|s' more]]; [| |contradiction].
  - destruct Hinv as (_ & _ & Hf). rewrite Hf. cbn [List.length].
    refine (conj _ (conj _ (conj _ (conj _ _)))); try lia;
      try (intros H; now contradiction H); intros; contradiction.
  - destruct Hinv as (_ & Ht & Hf & _). rewrite Forall_forall in Hf.
    cbn [List.length].
    refine (conj _ (conj _ (conj _ (conj _ _)))); try lia.
    + intros Hne. exists s. split; [reflexivity|].
      destruct (finished w) as [|o l]; [now contradiction Hne|].
      specialize (Hf o (or_introl eq_refl)). intros ->. exact Hf.
    + intros h1 h2 H1 H2. apply Hf in H1, H2.
      destruct s; cbn in H1, H2; try contradiction; congruence.
    + intros h h' Hh H'. apply Ht in Hh. apply Hf in H'.
      rewrite Hh in H'. cbn in H'. congruence.
    + intros e h He Hh. apply Hf in He, Hh.
      destruct s; cbn in He, Hh; try contradiction; congruence.
Qed.

(** X16: a failed creation is never retried.  Once a call of
    [initTransport] has thrown, at every later moment the one promise is
    still the rejected one and no transport is stored; every call that
    has ended has thrown; a new call, whatever its kind, creates nothing
    and waits on the rejected promise; and every waiting call, when
    resumed, throws. *)
Theorem initTransport_rejection_sticks (w w' : World) (e : Exception) :
  reachable w -> In (Threw e) (finished w) -> steps w w' ->
  created w' = [Rejected]
  /\ transport (transportState w') = None
  /\ (forall outcome, In outcome (finished w') -> outcome = Threw Foreign)
  /\ (forall kind,
        created (call kind w') = [Rejected]
        /\ finished (call kind w') = finished w'
        /\ waiting (call kind w') = waiting w' ++ [AwaitInitPromise 0])
  /\ (forall n k,
        nth_error (waiting w') n = Some k ->
        exists w'',
          resume n w' = Some w''
          /\ created w'' = [Rejected]
          /\ finished w'' = finished w' ++ [Threw Foreign]).
Proof.
  intros Hreach Hin Hsteps.
  pose proof (invariant_reachable w Hreach) as Hinv.
  assert (Hc : created w = [Rejected]).
  { unfold invariant in Hinv.
    destruct (created w) as [|s [|s' more]]; [| |contradiction].
    - destruct Hinv as (_ & _ & Hf). rewrite Hf in Hin. destruct Hin.
    - destruct Hinv as (_ & _ & Hf & _). rewrite Forall_forall in Hf.
      specialize (Hf _ Hin). destruct s as [|h'|]; cbn in Hf;
        [contradiction | discriminate | reflexivity]. }
  assert (Hc' : created w' = [Rejected])
    by (apply (steps_after_settled w w'); auto; discriminate).
  pose proof (invariant_steps w w' Hinv Hsteps) as Hinv'.
  unfold invariant in Hinv'. rewrite Hc' in Hinv'.
  destruct Hinv' as (Hi' & Hth & Hf' & Hw').
  assert (Hnone : transport (transportState w') = None).
  { destruct (transport (transportState w')) as [h|]; [|reflexivity].
    discriminate (Hth h eq_refl). }
  refine (conj Hc' (conj Hnone (conj _ (conj _ _)))).
  - intros outcome Ho. rewrite Forall_forall in Hf'. exact (Hf' _ Ho).
  - intros kind. unfold call, sameKindReady. rewrite Hnone, Hi'.
    destruct (type (transportState w')); cbn [created finished waiting];
      auto.
  - intros n k Hk. unfold resume. rewrite Hk.
    assert (Hzero : awaited k = 0).
    { destruct Hw' as [(k0 & tl & Hw' & Htl & _) | Hw'].
      - rewrite Hw' in Hk. destruct n as [|n]; cbn in Hk.
        + now injection Hk as <-.
        + apply nth_error_In in Hk. rewrite Forall_forall in Htl.
          now rewrite (Htl _ Hk).
      - apply nth_error_In in Hk. rewrite Forall_forall in Hw'.
        now rewrite (Hw' _ Hk). }
    rewrite Hzero, Hc'. cbn [nth_error continue].
    eexists. split; [reflexivity|]. cbn [created finished]. auto.
Qed.
End SessionLife.

Lemma initTransport_creates_once_witness :
  exists w,
    Session.run [Session.Call "usb"; Session.Call "bluetooth";
                 Session.Settle 0%nat (Session.Fulfilled 7%nat);
                 Session.Resume 1%nat; Session.Resume 0%nat]
      Session.initial = Some w
    /\ Session.finished w = [Returned 7%nat; Returned 7%nat]
    /\ (List.length (Session.created w) <= 1)%nat.
Proof.
  eexists. split; [reflexivity|]. split; [reflexivity|].
  refine (proj1 (initTransport_creates_once _ _)).
  apply (run_steps [Session.Call "usb"; Session.Call "bluetooth";
                    Session.Settle 0%nat (Session.Fulfilled 7%nat);
                    Session.Resume 1%nat; Session.Resume 0%nat]).
  reflexivity.
Defined.

Lemma initTransport_rejection_sticks_witness :
  exists w w',
    Session.run [Session.Call "usb"; Session.Settle 0%nat Session.Rejected;
                 Session.Resume 0%nat] Session.initial = Some w
    /\ Session.run [Session.Call "usb"; Session.Resume 0%nat] w = Some w'
    /\ Session.created w' = [Session.Rejected]
    /\ Session.finished w' = [Threw Foreign; Threw Foreign].
Proof.
  eexists. eexists.
  split; [reflexivity|]. split; [reflexivity|].
  split; [|reflexivity].
  refine (proj1 (initTransport_rejection_sticks _ _ Foreign _ _ _)).
  - apply (run_steps [Session.Call "usb";
                      Session.Settle 0%nat Session.Rejected;
                      Session.Resume 0%nat]).
    reflexivity.
  - cbn. left. reflexivity.
  - apply (run_steps [Session.Call "usb"; Session.Resume 0%nat]).
    reflexivity.
Defined.
